(** * Data usage: report persistence and cross-set prefix aggregation

    A shallow embedding of [cmd/data-usage.go]:
    - [storeDataUsageInBackend], the consumer that writes every report
      received on a channel to the backend;
    - [loadPrefixUsageFromBackend], which adds up the per-prefix sizes kept
      by every erasure set of every server pool;
    - [loadDataUsageFromBackend], which reads the persisted report back and
      fills in the fields older or newer readers expect.

    Collaborators whose code lives in other files of the package (the object
    layer, the usage cache, the replication configuration, the JSON codec)
    are interfaces here: type classes or section variables.  Every call the
    functions make to them is kept, their results are arbitrary. *)

From Stdlib Require Import ZArith NArith.
From stdpp Require Import gmap strings list fin_maps.

#[local] Open Scope string_scope.
#[local] Open Scope list_scope.
#[local] Open Scope N_scope.

(** ** Go values *)

(** [uint64] arithmetic wraps around modulo [2^64]. *)
Definition uint64_modulus : N := 2 ^ 64.

(** The conversion [uint64(x)] of a signed integer. *)
Definition uint64 (x : Z) : N := Z.to_N (x mod Z.of_N uint64_modulus).

(** [a + b] on two [uint64]. *)
Definition uint64_add (a b : N) : N := (a + b) mod uint64_modulus.

(** [strings.HasPrefix(s, prefix)]. *)
Fixpoint HasPrefix (s prefix : string) : bool :=
  match prefix, s with
  | EmptyString, _ => true
  | String _ _, EmptyString => false
  | String a prefix', String b s' =>
      if Ascii.eqb a b then HasPrefix s' prefix' else false
  end.

(** [s[n:]]. *)
Fixpoint string_drop (n : nat) (s : string) : string :=
  match n, s with
  | O, _ => s
  | S _, EmptyString => EmptyString
  | S n', String _ s' => string_drop n' s'
  end.

(** [strings.TrimPrefix(s, prefix)]: [s] without the leading [prefix], or
    [s] itself when it does not start with [prefix]. *)
Definition TrimPrefix (s prefix : string) : string :=
  if HasPrefix s prefix then string_drop (String.length prefix) s else s.

(** A Go [map[string]V]: [None] is the nil map, [Some m] an allocated one. *)
Abbreviation gomap V := (option (gmap string V)).

(** [len(m)], which is 0 on the nil map too. *)
Definition len {V : Type} (m : gomap V) : nat :=
  match m with
  | None => O
  | Some g => size g
  end.

(** [m[k]] read from a [map[string]uint64]: a missing key reads as 0. *)
Definition index0 (m : gmap string N) (k : string) : N := default 0 (m !! k).

(** The order in which a [for k, v := range m] statement visits a map is
    left open by Go.  A [rangeOrder] picks one for every map; it is
    [range_sound] when it visits every entry exactly once. *)
Definition rangeOrder : Type :=
  ∀ V : Type, gmap string V → list (string * V).

Definition range_sound (range : rangeOrder) : Prop :=
  ∀ (V : Type) (m : gmap string V), range V m ≡ₚ map_to_list m.

(** Ranging over a possibly nil map: the nil map has no entry. *)
Definition rangeOf (range : rangeOrder) {V : Type} (m : gomap V)
  : list (string * V) :=
  match m with
  | None => []
  | Some g => range V g
  end.

(** ** Constants of the file *)

(** Modelled from the spec: [SlashSeparator] and [slashSeparator] are
    declared elsewhere in the package; the spec writes the snapshot key as
    the bucket, a slash and the snapshot file name. *)
Definition SlashSeparator : string := "/".
Definition slashSeparator : string := "/".

Definition dataUsageRoot : string := SlashSeparator.
Definition dataUsageObjName : string := ".usage.json".
Definition dataUsageCacheName : string := ".usage-cache.bin".
Definition dataUsageBloomName : string := ".bloomcycle.bin".

(** ** Records *)

(** Modelled from the spec: the declaration of [dataUsageEntry] is in
    another file.  The spec's usage entry carries a cumulative byte size, an
    object count and a version count, and a tree node knows its children;
    this file reads [Size] only, and converts it with [uint64(...)]. *)
Module dataUsageEntry.
Record t : Type := mk {
  Size : Z;
  Objects : N;
  Versions : N;
  Children : list string
}.
End dataUsageEntry.

(** Modelled from the spec: per-target replication counters (bytes and
    objects pending, failed, completed); the fields are the ones this file
    writes. *)
Record BucketTargetUsageInfo : Type := {
  ReplicationPendingSize : N;
  ReplicationFailedSize : N;
  ReplicatedSize : N;
  ReplicationPendingCount : N;
  ReplicationFailedCount : N
}.

(** Modelled from the spec: the newer per-bucket usage entry; the fields
    are the ones this file reads or writes, all of them unsigned. *)
Record BucketUsageInfo : Type := {
  Size : N;
  ReplicationPendingSizeV1 : N;
  ReplicationFailedSizeV1 : N;
  ReplicatedSizeV1 : N;
  ReplicationPendingCountV1 : N;
  ReplicationFailedCountV1 : N
}.

(** Modelled from the spec: the cluster-wide report, with total usage, the
    two per-bucket representations and the per-target replication map. *)
Record DataUsageInfo : Type := {
  ObjectsTotalCount : N;
  ObjectsTotalSize : N;
  BucketsCount : N;
  ReplicationInfo : gomap BucketTargetUsageInfo;
  BucketsUsage : gomap BucketUsageInfo;
  BucketSizes : gomap N
}.

(** [BucketUsageInfo{Size: size}]. *)
Definition BucketUsageInfo_ofSize (size : N) : BucketUsageInfo :=
  {| Size := size;
     ReplicationPendingSizeV1 := 0; ReplicationFailedSizeV1 := 0;
     ReplicatedSizeV1 := 0;
     ReplicationPendingCountV1 := 0; ReplicationFailedCountV1 := 0 |}.

(** [DataUsageInfo{}]. *)
Definition DataUsageInfo_zero : DataUsageInfo :=
  {| ObjectsTotalCount := 0; ObjectsTotalSize := 0; BucketsCount := 0;
     ReplicationInfo := None; BucketsUsage := None; BucketSizes := None |}.

(** The replication configuration of a bucket, of which this file reads
    [RoleArn]. *)
Record replicationConfig : Type := { RoleArn : string }.

(** [erasureServerPools]: server pools, each a list of erasure sets. *)
Record erasureSets (erasureObjects : Type) : Type := {
  sets : list erasureObjects
}.
Arguments sets {erasureObjects} _.

Record erasureServerPools (erasureObjects : Type) : Type := {
  serverPools : list (erasureSets erasureObjects)
}.
Arguments serverPools {erasureObjects} _.

(** ** Interfaces and functions *)

Section DataUsage.
Context {error Reader hashReader PutObjReader erasureObjects : Type}.

(** The methods of [ObjectLayer] this file calls.  The context, the nil
    range, the empty header, [readLock] and the empty [ObjectOptions] are
    the same at every call and are left out.  [PutObject] may change the
    backend, [GetObjectNInfo] returns a reader or an error, and
    [asErasureServerPools] is the type assertion
    to the concrete erasure server pools. *)
Class ObjectLayer (O : Type) : Type := {
  GetObjectNInfo : O → string → string → error + Reader;
  PutObject : O → string → string → PutObjReader → O * option error;
  asErasureServerPools : O → option (erasureServerPools erasureObjects)
}.

(** The methods of [dataUsageCache] this file calls.  [load] writes into
    its receiver, so it takes the cache as it stands and returns the cache
    it leaves with its error; [find] returns nil ([None]) when the cache has
    no entry for the path. *)
Class UsageCache (dataUsageCache : Type) : Type := {
  dataUsageCache_zero : dataUsageCache;
  load : dataUsageCache → erasureObjects → string →
         dataUsageCache * option error;
  find : dataUsageCache → string → option dataUsageEntry.t;
  flattenChildrens : dataUsageCache → dataUsageEntry.t →
                     gmap string dataUsageEntry.t
}.

Context {O : Type} `{!ObjectLayer O}.
Context {dataUsageCache : Type} `{!UsageCache dataUsageCache}.

(** Functions and constants of other files and packages. *)
Variable minioMetaBucket bucketMetaPrefix : string.
Variable decodeDirObject : string → string.
Variable isErrObjectNotFound isErrBucketNotFound : option error → bool.
Variable toObjectErr : option error → list string → option error.
Variable getReplicationConfig : string → error + replicationConfig.
Variable Marshal : DataUsageInfo → error + list Byte.byte.
Variable Decode : Reader → error + DataUsageInfo.
Variable NewReader :
  list Byte.byte → Z → string → string → Z → error + hashReader.
Variable NewPutObjReader : hashReader → PutObjReader.

(** The order every [range] over a map takes. *)
Variable range : rangeOrder.

Definition dataUsageBucket : string :=
  minioMetaBucket +:+ SlashSeparator +:+ bucketMetaPrefix.

(** *** storeDataUsageInBackend *)

(** The calls the consumer makes, in the order it makes them. *)
Inductive call : Type :=
| CallMarshal (v : DataUsageInfo)
| CallNewReader (data : list Byte.byte) (size : Z)
| CallPutObject (bucket object : string) (r : PutObjReader)
| CallLogIf (err : option error).

Record storeRun : Type := {
  backend : O;
  calls : list call
}.

Definition record (st : storeRun) (c : call) : storeRun :=
  {| backend := backend st; calls := (calls st ++ [c])%list |}.

(** The body of the loop, for one report taken from the channel. *)
Definition storeOne (st : storeRun) (dataUsageInfo : DataUsageInfo)
  : storeRun :=
  let st := record st (CallMarshal dataUsageInfo) in
  match Marshal dataUsageInfo with
  | inl err => record st (CallLogIf (Some err))
  | inr dataUsageJSON =>
      let size := Z.of_nat (length dataUsageJSON) in
      let st := record st (CallNewReader dataUsageJSON size) in
      match NewReader dataUsageJSON size "" "" size with
      | inl err => record st (CallLogIf (Some err))
      | inr r =>
          let por := NewPutObjReader r in
          let st := record st
                      (CallPutObject dataUsageBucket dataUsageObjName por) in
          let '(o, err) :=
            PutObject (backend st) dataUsageBucket dataUsageObjName por in
          let st := {| backend := o; calls := calls st |} in
          if negb (isErrBucketNotFound err)
          then record st (CallLogIf err)
          else st
      end
  end.

(** [dui] lists the reports sent on the channel before it is closed; the
    loop takes them one by one and ends when the channel is drained. *)
Definition storeDataUsageInBackend (objAPI : O) (dui : list DataUsageInfo)
  : storeRun :=
  foldl storeOne {| backend := objAPI; calls := [] |} dui.

(** *** loadPrefixUsageFromBackend *)

(** The locals of the function while it walks the erasure sets: the one
    [cache] every iteration loads into, the result map [m], and the calls
    to [cache.load] made so far (erasure set and object name). *)
Record prefixScan : Type := {
  cache : dataUsageCache;
  m : gmap string N;
  loads : list (erasureObjects * string)
}.

(** The key under which an entry of the flattened tree is reported. *)
Definition prefixOf (bucket id : string) : string :=
  decodeDirObject (TrimPrefix id (bucket +:+ slashSeparator)).

(** [m[prefix] += uint64(usageInfo.Size)]. *)
Definition addPrefixUsage (bucket : string) (m : gmap string N)
    (kv : string * dataUsageEntry.t) : gmap string N :=
  let prefix := prefixOf bucket kv.1 in
  <[prefix := uint64_add (index0 m prefix)
                         (uint64 (dataUsageEntry.Size kv.2))]> m.

(** The body of the inner loop, for the erasure set [er]. *)
Definition scanSet (bucket : string) (st : prefixScan) (er : erasureObjects)
  : prefixScan :=
  let name := bucket +:+ slashSeparator +:+ dataUsageCacheName in
  let '(c, err) := load (cache st) er name in
  let ls := (loads st ++ [(er, name)])%list in
  match err with
  | Some _ => {| cache := c; m := m st; loads := ls |}
  | None =>
      match find c bucket with
      | None => {| cache := c; m := m st; loads := ls |}
      | Some root =>
          {| cache := c;
             m := foldl (addPrefixUsage bucket) (m st)
                        (range _ (flattenChildrens c root));
             loads := ls |}
      end
  end.

(** Both loops: every set of every pool, in order. *)
Definition scanPools (bucket : string) (st : prefixScan)
    (pools : list (erasureSets erasureObjects)) : prefixScan :=
  foldl (λ st pool, foldl (scanSet bucket) st (sets pool)) st pools.

(** The function returns its map and its error; the second component lists
    the snapshot loads it made. *)
Definition loadPrefixUsageFromBackend (objAPI : O) (bucket : string)
  : (gomap N * option error) * list (erasureObjects * string) :=
  match asErasureServerPools objAPI with
  | None => ((Some ∅, None), [])
  | Some z =>
      let st := scanPools bucket
                  {| cache := dataUsageCache_zero; m := ∅; loads := [] |}
                  (serverPools z) in
      ((Some (m st), None), loads st)
  end.

(** *** loadDataUsageFromBackend *)

(** The test that guards the migration of the legacy counters. *)
Definition hasReplicationV1 (bui : BucketUsageInfo) : bool :=
  (0 <? ReplicatedSizeV1 bui) || (0 <? ReplicationFailedCountV1 bui) ||
  (0 <? ReplicationFailedSizeV1 bui) || (0 <? ReplicationPendingCountV1 bui).

(** The per-target entry built from the legacy counters of a bucket. *)
Definition targetOfV1 (bui : BucketUsageInfo) : BucketTargetUsageInfo :=
  {| ReplicationFailedSize := ReplicationFailedSizeV1 bui;
     ReplicationFailedCount := ReplicationFailedCountV1 bui;
     ReplicatedSize := ReplicatedSizeV1 bui;
     ReplicationPendingCount := ReplicationPendingCountV1 bui;
     ReplicationPendingSize := ReplicationPendingSizeV1 bui |}.

(** The last loop, over the entries of [BucketsUsage] in the order given,
    with [ri] the value of [dataUsageInfo.ReplicationInfo]: the error of the
    first failing lookup, or the map the loop leaves. *)
Fixpoint migrateReplicationV1 (ri : gomap BucketTargetUsageInfo)
    (l : list (string * BucketUsageInfo))
  : error + gomap BucketTargetUsageInfo :=
  match l with
  | [] => inr ri
  | (bucket, bui) :: rest =>
      if hasReplicationV1 bui then
        let ri : gmap string BucketTargetUsageInfo := ∅ in
        match getReplicationConfig bucket with
        | inl err => inl err
        | inr cfg =>
            migrateReplicationV1 (Some (<[RoleArn cfg := targetOfV1 bui]> ri))
                                 rest
        end
      else migrateReplicationV1 ri rest
  end.

(** [BucketsUsage] rebuilt from [BucketSizes]. *)
Definition usageOfSizes (sizes : list (string * N))
  : gmap string BucketUsageInfo :=
  foldl (λ acc kv, <[kv.1 := BucketUsageInfo_ofSize kv.2]> acc) ∅ sizes.

(** [BucketSizes] rebuilt from [BucketsUsage]. *)
Definition sizesOfUsage (usage : list (string * BucketUsageInfo))
  : gmap string N :=
  foldl (λ acc kv, <[kv.1 := Size kv.2]> acc) ∅ usage.

Definition withBucketsUsage (d : DataUsageInfo)
    (bu : gomap BucketUsageInfo) : DataUsageInfo :=
  {| ObjectsTotalCount := ObjectsTotalCount d;
     ObjectsTotalSize := ObjectsTotalSize d;
     BucketsCount := BucketsCount d;
     ReplicationInfo := ReplicationInfo d;
     BucketsUsage := bu;
     BucketSizes := BucketSizes d |}.

Definition withBucketSizes (d : DataUsageInfo) (bs : gomap N)
  : DataUsageInfo :=
  {| ObjectsTotalCount := ObjectsTotalCount d;
     ObjectsTotalSize := ObjectsTotalSize d;
     BucketsCount := BucketsCount d;
     ReplicationInfo := ReplicationInfo d;
     BucketsUsage := BucketsUsage d;
     BucketSizes := bs |}.

Definition withReplicationInfo (d : DataUsageInfo)
    (ri : gomap BucketTargetUsageInfo) : DataUsageInfo :=
  {| ObjectsTotalCount := ObjectsTotalCount d;
     ObjectsTotalSize := ObjectsTotalSize d;
     BucketsCount := BucketsCount d;
     ReplicationInfo := ri;
     BucketsUsage := BucketsUsage d;
     BucketSizes := BucketSizes d |}.

(** The two compatibility steps on a decoded report. *)
Definition fillBucketsUsage (d : DataUsageInfo) : DataUsageInfo :=
  if decide (len (BucketsUsage d) = 0%nat)
  then withBucketsUsage d
         (Some (usageOfSizes (rangeOf range (BucketSizes d))))
  else d.

Definition fillBucketSizes (d : DataUsageInfo) : DataUsageInfo :=
  if decide (len (BucketSizes d) = 0%nat)
  then withBucketSizes d
         (Some (sizesOfUsage (rangeOf range (BucketsUsage d))))
  else d.

(** The function returns its report and its error.  The deferred
    [r.Close()] has no part in either and is left out. *)
Definition loadDataUsageFromBackend (objAPI : O)
  : DataUsageInfo * option error :=
  match GetObjectNInfo objAPI dataUsageBucket dataUsageObjName with
  | inl err =>
      if isErrObjectNotFound (Some err) || isErrBucketNotFound (Some err)
      then (DataUsageInfo_zero, None)
      else (DataUsageInfo_zero,
            toObjectErr (Some err) [dataUsageBucket; dataUsageObjName])
  | inr r =>
      match Decode r with
      | inl err => (DataUsageInfo_zero, Some err)
      | inr dataUsageInfo =>
          let dataUsageInfo := fillBucketsUsage dataUsageInfo in
          let dataUsageInfo := fillBucketSizes dataUsageInfo in
          match migrateReplicationV1 (ReplicationInfo dataUsageInfo)
                  (rangeOf range (BucketsUsage dataUsageInfo)) with
          | inl err => (DataUsageInfo_zero, Some err)
          | inr ri => (withReplicationInfo dataUsageInfo ri, None)
          end
      end
  end.

(** *** What the consumer is compared with *)

Definition isMarshalCall (c : call) : bool :=
  match c with
  | CallMarshal _ => true
  | _ => false
  end.

Definition isPutCall (c : call) : bool :=
  match c with
  | CallPutObject _ _ _ => true
  | _ => false
  end.


(** The reader handed to [PutObject] for a report, when the report
    serializes and the hash reader can be built. *)
Definition putPayload (d : DataUsageInfo) : option PutObjReader :=
  match Marshal d with
  | inl _ => None
  | inr dataUsageJSON =>
      let size := Z.of_nat (length dataUsageJSON) in
      match NewReader dataUsageJSON size "" "" size with
      | inl _ => None
      | inr r => Some (NewPutObjReader r)
      end
  end.

(** The calls made for one report on the backend [o], and the backend the
    iteration leaves. *)
Definition attemptCalls (o : O) (d : DataUsageInfo) : list call :=
  calls (storeOne {| backend := o; calls := [] |} d).

Definition backendAfter (o : O) (d : DataUsageInfo) : O :=
  backend (storeOne {| backend := o; calls := [] |} d).

(** The calls of a run, one block per report. *)
Fixpoint attempts (o : O) (dui : list DataUsageInfo) : list (list call) :=
  match dui with
  | [] => []
  | d :: rest => attemptCalls o d :: attempts (backendAfter o d) rest
  end.

(** *** What the aggregation is compared with *)

(** Sum of a list of numbers, without wrap-around. *)
Definition sumN (l : list N) : N := foldr N.add 0 l.

(** The amounts recorded under the key [p] in a list of keyed amounts. *)
Definition prefixTotal (p : string) (l : list (string * N)) : N :=
  sumN (snd <$> filter (λ kv, kv.1 = p) l).

(** The value read under [p] once the amount [t] has been added to an entry
    that read [old], when [p] is one of the [keys] written; the entry is
    left alone otherwise. *)
Definition added (old : option N) (keys : list string) (p : string) (t : N)
  : option N :=
  if decide (p ∈ keys) then Some ((default 0 old + t) mod uint64_modulus)
  else old.

(** All erasure sets of all pools, in the order the loops visit them. *)
Definition allSets (z : erasureServerPools erasureObjects)
  : list erasureObjects :=
  concat (sets <$> serverPools z).

(** The cache and the error every [cache.load] leaves, set after set: each
    load starts from the cache the one before left. *)
Fixpoint loadOutcomes (bucket : string) (c : dataUsageCache)
    (ers : list erasureObjects) : list (dataUsageCache * option error) :=
  match ers with
  | [] => []
  | er :: rest =>
      let r := load c er (bucket +:+ slashSeparator +:+ dataUsageCacheName) in
      r :: loadOutcomes bucket r.1 rest
  end.

(** A set counts for a bucket when its snapshot loads without error and
    holds a root for the bucket. *)
Definition contributes (bucket : string) (r : dataUsageCache * option error)
  : bool :=
  match r.2 with
  | Some _ => false
  | None => bool_decide (is_Some (find r.1 bucket))
  end.

(** Entries of a flattened tree under the keys they are reported with,
    sizes as [uint64]. *)
Definition keyedEntries (bucket : string)
    (l : list (string * dataUsageEntry.t)) : list (string * N) :=
  (λ kv : string * dataUsageEntry.t,
     (prefixOf bucket kv.1, uint64 (dataUsageEntry.Size kv.2))) <$> l.

(** The keyed entries of a set; nothing for a set that does not count. *)
Definition setEntries (bucket : string) (r : dataUsageCache * option error)
  : list (string * N) :=
  match r.2 with
  | Some _ => []
  | None =>
      match find r.1 bucket with
      | None => []
      | Some root =>
          keyedEntries bucket (map_to_list (flattenChildrens r.1 root))
      end
  end.

(** The size a set holds for the key [p]. *)
Definition setTotal (bucket p : string) (r : dataUsageCache * option error)
  : N :=
  prefixTotal p (setEntries bucket r).

(** The keys reported by at least one set. *)
Definition reportedKeys (bucket : string)
    (rs : list (dataUsageCache * option error)) : list string :=
  (concat (setEntries bucket <$> rs)).*1.

(** A load that succeeds replaces the cache wholesale: whether it fails,
    and the cache a successful load leaves, do not depend on what the cache
    held before. *)
Definition load_replaces : Prop :=
  ∀ (c c' : dataUsageCache) (er : erasureObjects) (name : string),
    (load c er name).2 = (load c' er name).2 ∧
    ((load c er name).2 = None → (load c er name).1 = (load c' er name).1).

(** Whether the snapshot of a set, loaded on its own, counts for a bucket. *)
Definition keepsUsage (bucket : string) (er : erasureObjects) : bool :=
  contributes bucket
    (load dataUsageCache_zero er
       (bucket +:+ slashSeparator +:+ dataUsageCacheName)).

(** The server pools without the sets that do not count for a bucket. *)
Definition countingSets (bucket : string)
    (z : erasureServerPools erasureObjects)
  : erasureServerPools erasureObjects :=
  {| serverPools :=
       (λ pool,
          {| sets := filter (λ er, keepsUsage bucket er = true) (sets pool) |})
         <$> serverPools z |}.

(** The entry expected under [p] in the result: absent when no set reports
    the key, and otherwise the sum over the sets of what each holds for it,
    in [uint64]. *)
Definition expectedUsage (bucket : string)
    (rs : list (dataUsageCache * option error)) (p : string) : option N :=
  if decide (p ∈ reportedKeys bucket rs)
  then Some (sumN (setTotal bucket p <$> rs) mod uint64_modulus)
  else None.

End DataUsage.

(** ** A small backend to run the functions on

    Concrete collaborators, kept as simple as the interfaces allow.  They are
    used to evaluate the functions on explicit inputs; the theorems below are
    stated for every implementation of the interfaces. *)

Module Sample.

Inductive error : Type :=
| ErrObjectNotFound
| ErrBucketNotFound
| ErrCorrupted
| ErrOther (msg : string).

(** What an erasure set stores under an object name: a snapshot that
    decodes to a tree, or bytes that do not decode. *)
Inductive snapshot : Type :=
| CorruptSnapshot
| Snapshot (tree : gmap string dataUsageEntry.t).

Definition erasureObjects : Type := gmap string snapshot.

(** Modelled from the spec: the usage tree as a mapping from path identifier
    to entry, each entry naming its children. *)
Definition dataUsageCache : Type := gmap string dataUsageEntry.t.

(** Modelled from the spec: [dataUsageCache.load].  A snapshot that does not
    exist is not an error and leaves the empty tree; one that does not decode
    is an error; a load replaces the tree wholesale. *)
Definition loadTree (c : dataUsageCache) (er : erasureObjects) (name : string)
  : dataUsageCache * option error :=
  match er !! name with
  | None => (∅, None)
  | Some CorruptSnapshot => (c, Some ErrCorrupted)
  | Some (Snapshot tree) => (tree, None)
  end.

(** Modelled from the spec: [dataUsageCache.find], the entry whose path
    identifier is the bucket name, nil when there is none. *)
Definition findRoot (c : dataUsageCache) (path : string)
  : option dataUsageEntry.t :=
  c !! path.

Fixpoint descendants (fuel : nat) (c : dataUsageCache) (ids : list string)
  : gmap string dataUsageEntry.t :=
  match fuel with
  | O => ∅
  | S fuel' =>
      foldr (λ id acc,
               match c !! id with
               | None => acc
               | Some e =>
                   <[id := e]>
                     (descendants fuel' c (dataUsageEntry.Children e) ∪ acc)
               end) ∅ ids
  end.

(** Modelled from the spec: [dataUsageCache.flattenChildrens], one entry per
    descendant of the root, keyed by its path identifier and carrying its own
    statistics. *)
Definition flattenTree (c : dataUsageCache) (root : dataUsageEntry.t)
  : gmap string dataUsageEntry.t :=
  descendants (size c) c (dataUsageEntry.Children root).

#[global] Instance cacheOps :
  UsageCache (error := error) (erasureObjects := erasureObjects)
    dataUsageCache :=
  {| dataUsageCache_zero := ∅;
     load := loadTree;
     find := findRoot;
     flattenChildrens := flattenTree |}.

(** Modelled from the spec: [decodeDirObject] turns a trailing directory
    marker into a slash and leaves other names alone. *)
Definition globalDirSuffix : string := "__XLDIR__".

Definition HasSuffix (s suffix : string) : bool :=
  HasPrefix (String.rev s) (String.rev suffix).

Definition decodeDirObject (object : string) : string :=
  if HasSuffix object globalDirSuffix
  then String.substring 0 (String.length object - String.length globalDirSuffix)
         object +:+ slashSeparator
  else object.

(** An object layer: named buckets of named objects, and the server pools
    when the layer is the erasure-coded one. *)
Record backend : Type := {
  pools : option (erasureServerPools erasureObjects);
  buckets : gmap string (gmap string (list Byte.byte));
  offline : bool
}.

Definition getObject (o : backend) (bucket object : string)
  : error + list Byte.byte :=
  if offline o then inl (ErrOther "offline") else
  match buckets o !! bucket with
  | None => inl ErrBucketNotFound
  | Some objs =>
      match objs !! object with
      | None => inl ErrObjectNotFound
      | Some data => inr data
      end
  end.

Definition putObject (o : backend) (bucket object : string)
    (data : list Byte.byte) : backend * option error :=
  if offline o then (o, Some (ErrOther "offline")) else
  match buckets o !! bucket with
  | None => (o, Some ErrBucketNotFound)
  | Some objs =>
      ({| pools := pools o;
          buckets := <[bucket := <[object := data]> objs]> (buckets o);
          offline := false |},
       None)
  end.

#[global] Instance layerOps :
  ObjectLayer (error := error) (Reader := list Byte.byte)
    (PutObjReader := list Byte.byte) (erasureObjects := erasureObjects)
    backend :=
  {| GetObjectNInfo := getObject;
     PutObject := putObject;
     asErasureServerPools := pools |}.

Definition isErrObjectNotFound (err : option error) : bool :=
  match err with
  | Some ErrObjectNotFound => true
  | _ => false
  end.

Definition isErrBucketNotFound (err : option error) : bool :=
  match err with
  | Some ErrBucketNotFound => true
  | _ => false
  end.

Definition toObjectErr (err : option error) (params : list string)
  : option error := err.

(** Replication configurations by bucket; a bucket without one fails the
    lookup. *)
Definition getReplicationConfig (cfgs : gmap string string) (bucket : string)
  : error + replicationConfig :=
  match cfgs !! bucket with
  | None => inl (ErrOther "replication configuration not found")
  | Some arn => inr {| RoleArn := arn |}
  end.

#[global] Instance byte_eq_dec : EqDecision Byte.byte := Byte.byte_eq_dec.

(** A codec given by a table: the bytes of the reports it knows. *)
Definition Decode (table : list (list Byte.byte * DataUsageInfo))
    (r : list Byte.byte) : error + DataUsageInfo :=
  match list_find (λ kv, kv.1 = r) table with
  | None => inl ErrCorrupted
  | Some (_, (_, d)) => inr d
  end.

(** A serializer that writes one byte per bucket counted and refuses a
    report that counts none. *)
Definition Marshal (d : DataUsageInfo) : error + list Byte.byte :=
  if decide (BucketsCount d = 0)
  then inl (ErrOther "cannot serialize")
  else inr (replicate (N.to_nat (BucketsCount d)) Byte.x2a).

(** A hash reader that takes at most [limit] bytes. *)
Definition NewReader (limit : Z) (data : list Byte.byte) (size : Z)
    (md5Hex sha256Hex : string) (actualSize : Z) : error + list Byte.byte :=
  if decide (size ≤ limit)%Z then inr data else inl (ErrOther "too large").

Definition NewPutObjReader (r : list Byte.byte) : list Byte.byte := r.

(** The order in which stdpp lists a map. *)
Definition range : rangeOrder := λ V m, map_to_list m.

(** The order in which stdpp lists a map, reversed. *)
Definition rangeRev : rangeOrder := λ V m, reverse (map_to_list m).

(** *** Erasure sets and object layers *)

Definition entry (size : Z) (children : list string) : dataUsageEntry.t :=
  dataUsageEntry.mk size 1 1 children.

Definition treeA : gmap string dataUsageEntry.t :=
  {[ "bucket" := entry 150 ["bucket/x"; "bucket/y"];
     "bucket/x" := entry 100 [];
     "bucket/y" := entry 50 [] ]}.

Definition treeB : gmap string dataUsageEntry.t :=
  {[ "bucket" := entry 20 ["bucket/x"];
     "bucket/x" := entry 20 [] ]}.

Definition snapshotName : string := "bucket/.usage-cache.bin".

Definition setA : erasureObjects := {[ snapshotName := Snapshot treeA ]}.
Definition setB : erasureObjects := {[ snapshotName := Snapshot treeB ]}.
Definition setC : erasureObjects := ∅.
Definition setCorrupt : erasureObjects :=
  {[ snapshotName := CorruptSnapshot ]}.

Definition poolsABC : erasureServerPools erasureObjects :=
  {| serverPools := [ {| sets := [setA; setB] |}; {| sets := [setC] |} ] |}.

Definition poolsMixed : erasureServerPools erasureObjects :=
  {| serverPools := [ {| sets := [setCorrupt; setA] |};
                      {| sets := [setC; setB; setCorrupt] |} ] |}.

Definition poolsCorrupt : erasureServerPools erasureObjects :=
  {| serverPools := [ {| sets := [setCorrupt; setCorrupt] |};
                      {| sets := [setCorrupt] |} ] |}.

(** Three sets that each hold the largest [int64] size under bucket/x. *)
Definition treeHuge : gmap string dataUsageEntry.t :=
  {[ "bucket" := entry 9223372036854775807 ["bucket/x"];
     "bucket/x" := entry 9223372036854775807 [] ]}.

Definition setHuge : erasureObjects := {[ snapshotName := Snapshot treeHuge ]}.

Definition poolsHuge : erasureServerPools erasureObjects :=
  {| serverPools := [ {| sets := [setHuge; setHuge; setHuge] |} ] |}.

Definition erasureLayer (z : erasureServerPools erasureObjects) : backend :=
  {| pools := Some z; buckets := ∅; offline := false |}.

Definition otherLayer : backend :=
  {| pools := None; buckets := ∅; offline := false |}.

(** *** Reports *)

Definition minioMetaBucket : string := ".minio.sys".
Definition bucketMetaPrefix : string := "buckets".

Definition usage (size replicated pending : N) : BucketUsageInfo :=
  {| Size := size;
     ReplicationPendingSizeV1 := pending; ReplicationFailedSizeV1 := 0;
     ReplicatedSizeV1 := replicated;
     ReplicationPendingCountV1 := 0; ReplicationFailedCountV1 := 0 |}.

Definition report (count : N) (bu : gomap BucketUsageInfo) (bs : gomap N)
  : DataUsageInfo :=
  {| ObjectsTotalCount := 0; ObjectsTotalSize := 0; BucketsCount := count;
     ReplicationInfo := None; BucketsUsage := bu; BucketSizes := bs |}.

(** Only the older per-bucket map. *)
Definition reportSizesOnly : DataUsageInfo :=
  report 2 None (Some {[ "a" := 10; "b" := 20 ]}).

(** Only the newer per-bucket map. *)
Definition reportUsageOnly : DataUsageInfo :=
  report 2 (Some {[ "a" := usage 10 0 0; "b" := usage 20 0 0 ]}) None.

(** Two buckets with legacy replication counters. *)
Definition reportLegacy : DataUsageInfo :=
  report 2 (Some {[ "a" := usage 10 1 0; "b" := usage 20 2 0 ]}) None.

(** One bucket whose only legacy counter is the pending size. *)
Definition reportPendingSize : DataUsageInfo :=
  report 1 (Some {[ "c" := usage 30 0 7 ]}) None.

Definition codec : list (list Byte.byte * DataUsageInfo) :=
  [ ([Byte.x01], reportSizesOnly); ([Byte.x02], reportUsageOnly);
    ([Byte.x03], reportLegacy); ([Byte.x04], reportPendingSize) ].

Definition replicationTargets : gmap string string :=
  {[ "a" := "arn:target-a"; "b" := "arn:target-b"; "c" := "arn:target-c" ]}.

(** A layer whose metadata bucket holds the report object with [data]. *)
Definition layerWithReport (data : list Byte.byte) : backend :=
  {| pools := None;
     buckets := {[ ".minio.sys/buckets" := {[ ".usage.json" := data ]} ]};
     offline := false |}.

(** A layer whose metadata bucket exists and is empty. *)
Definition layerNoReport : backend :=
  {| pools := None;
     buckets := {[ ".minio.sys/buckets" := ∅ ]};
     offline := false |}.

Definition layerOffline : backend :=
  {| pools := None; buckets := ∅; offline := true |}.

(** *** The functions on the sample collaborators *)

Definition loadPrefixUsage (objAPI : backend) (bucket : string)
  : (gomap N * option error) * list (erasureObjects * string) :=
  loadPrefixUsageFromBackend decodeDirObject range objAPI bucket.

Definition loadDataUsage (order : rangeOrder) (cfgs : gmap string string)
    (objAPI : backend) : DataUsageInfo * option error :=
  loadDataUsageFromBackend minioMetaBucket bucketMetaPrefix
    isErrObjectNotFound isErrBucketNotFound toObjectErr
    (getReplicationConfig cfgs) (Decode codec) order objAPI.

Definition storeDataUsage (limit : Z) (objAPI : backend)
    (dui : list DataUsageInfo) : storeRun :=
  storeDataUsageInBackend minioMetaBucket bucketMetaPrefix
    isErrBucketNotFound Marshal (NewReader limit) NewPutObjReader objAPI dui.

End Sample.

(** ** Arithmetic and map lemmas *)

Lemma prefixTotal_nil (p : string) : prefixTotal p [] = 0.
Proof. reflexivity. Qed.

Lemma prefixTotal_cons (p k : string) (v : N) (l : list (string * N)) :
  prefixTotal p ((k, v) :: l) =
  (if decide (k = p) then v else 0) + prefixTotal p l.
Proof.
  unfold prefixTotal. rewrite filter_cons. simpl.
  destruct (decide (k = p)); [reflexivity|].
  by rewrite N.add_0_l.
Qed.

Lemma prefixTotal_absent (p : string) (l : list (string * N)) :
  p ∉ l.*1 → prefixTotal p l = 0.
Proof.
  induction l as [|[k v] l IH]; [done|].
  rewrite fmap_cons, not_elem_of_cons. simpl. intros [Hne Hl].
  rewrite prefixTotal_cons, IH by done.
  destruct (decide (k = p)); [congruence | done].
Qed.

Lemma sumN_perm (l1 l2 : list N) : l1 ≡ₚ l2 → sumN l1 = sumN l2.
Proof.
  unfold sumN. induction 1 as [|x l l' _ IH|x y l|l l' l'' _ IH1 _ IH2]; simpl.
  - done.
  - by rewrite IH.
  - rewrite !N.add_assoc. f_equal. apply N.add_comm.
  - by rewrite IH1.
Qed.

Lemma prefixTotal_perm (p : string) (l1 l2 : list (string * N)) :
  l1 ≡ₚ l2 → prefixTotal p l1 = prefixTotal p l2.
Proof.
  intros Hp. unfold prefixTotal. apply sumN_perm. by rewrite Hp.
Qed.

Lemma added_nil (old : option N) (p : string) (t : N) :
  added old [] p t = old.
Proof.
  unfold added. destruct (decide (p ∈ [])) as [Hin|]; [|done].
  by apply elem_of_nil in Hin.
Qed.

Lemma added_added (old : option N) (k1 k2 : list string) (p : string)
    (t1 t2 : N) :
  (p ∉ k1 → t1 = 0) → (p ∉ k2 → t2 = 0) →
  added (added old k1 p t1) k2 p t2 = added old (k1 ++ k2) p (t1 + t2).
Proof.
  intros H1 H2. unfold added.
  destruct (decide (p ∈ k1)) as [Hk1|Hk1];
    destruct (decide (p ∈ k2)) as [Hk2|Hk2]; simpl.
  - rewrite decide_True by (apply elem_of_app; by left).
    f_equal. rewrite N.Div0.add_mod_idemp_l. f_equal. lia.
  - rewrite decide_True by (apply elem_of_app; by left).
    by rewrite (H2 Hk2), N.add_0_r.
  - rewrite decide_True by (apply elem_of_app; by right).
    by rewrite (H1 Hk1), N.add_0_l.
  - rewrite decide_False; [done|].
    intros [?|?]%elem_of_app; done.
Qed.

Lemma added_perm (old : option N) (k1 k2 : list string) (p : string) (t : N) :
  k1 ≡ₚ k2 → added old k1 p t = added old k2 p t.
Proof.
  intros Hp. unfold added.
  destruct (decide (p ∈ k1)) as [H1|H1];
    destruct (decide (p ∈ k2)) as [H2|H2]; try done.
  - by rewrite Hp in H1.
  - by rewrite <- Hp in H2.
Qed.

(** ** The aggregation loop *)

Section PrefixUsage.
Context {error Reader PutObjReader erasureObjects O : Type}.
Context `{!ObjectLayer (error := error) (Reader := Reader)
            (PutObjReader := PutObjReader)
            (erasureObjects := erasureObjects) O}.
Context {dataUsageCache : Type}.
Context `{!UsageCache (error := error) (erasureObjects := erasureObjects)
            dataUsageCache}.
Variable decodeDirObject : string → string.
Variable range : rangeOrder.
Hypothesis range_ok : range_sound range.

Implicit Types (bucket p : string) (m : gmap string N).
Implicit Types (st : prefixScan (erasureObjects := erasureObjects)
                       (dataUsageCache := dataUsageCache)).

Lemma addPrefixUsage_lookup bucket m kv p :
  addPrefixUsage decodeDirObject bucket m kv !! p =
  added (m !! p) [prefixOf decodeDirObject bucket kv.1] p
    (if decide (prefixOf decodeDirObject bucket kv.1 = p)
     then uint64 (dataUsageEntry.Size kv.2) else 0).
Proof.
  unfold addPrefixUsage, added, index0, uint64_add. simpl.
  destruct (decide (prefixOf decodeDirObject bucket kv.1 = p)) as [->|Hne].
  - rewrite lookup_insert_eq. rewrite decide_True; [done|].
    by apply list_elem_of_singleton.
  - rewrite lookup_insert_ne by done.
    rewrite decide_False; [done|].
    intros Hin%list_elem_of_singleton. congruence.
Qed.

Lemma foldl_addPrefixUsage_lookup bucket l m p :
  foldl (addPrefixUsage decodeDirObject bucket) m l !! p =
  added (m !! p) (keyedEntries decodeDirObject bucket l).*1 p
    (prefixTotal p (keyedEntries decodeDirObject bucket l)).
Proof.
  revert m. induction l as [|kv l IH]; intros m; simpl.
  - by rewrite prefixTotal_nil, added_nil.
  - rewrite IH, addPrefixUsage_lookup, added_added.
    + by rewrite prefixTotal_cons.
    + intros Hout. rewrite decide_False; [done|].
      intros <-. apply Hout, list_elem_of_singleton. done.
    + apply prefixTotal_absent.
Qed.

Lemma keyedEntries_perm bucket l1 l2 :
  l1 ≡ₚ l2 →
  keyedEntries decodeDirObject bucket l1 ≡ₚ
  keyedEntries decodeDirObject bucket l2.
Proof. intros Hp. unfold keyedEntries. by rewrite Hp. Qed.

(** One erasure set: the cache it leaves and the entry it leaves under [p]. *)
Lemma scanSet_spec bucket st er p :
  let r := load (cache st) er
             (bucket +:+ slashSeparator +:+ dataUsageCacheName) in
  cache (scanSet decodeDirObject range bucket st er) = r.1 ∧
  m (scanSet decodeDirObject range bucket st er) !! p =
  added (m st !! p) (setEntries decodeDirObject bucket r).*1 p
    (setTotal decodeDirObject bucket p r).
Proof.
  unfold scanSet, setTotal, setEntries. simpl.
  destruct (load _ er _) as [c [e|]]; simpl.
  - split; [done|]. by rewrite added_nil.
  - destruct (find c bucket) as [root|]; simpl.
    + split; [done|]. rewrite foldl_addPrefixUsage_lookup.
      pose proof (keyedEntries_perm bucket _ _
                    (range_ok _ (flattenChildrens c root))) as Hp.
      rewrite (prefixTotal_perm _ _ _ Hp).
      apply added_perm. by rewrite Hp.
    + split; [done|]. by rewrite added_nil.
Qed.

Lemma reportedKeys_cons bucket r rs :
  reportedKeys decodeDirObject bucket (r :: rs) =
  (setEntries decodeDirObject bucket r).*1 ++
  reportedKeys decodeDirObject bucket rs.
Proof. unfold reportedKeys. simpl. by rewrite fmap_app. Qed.

Lemma reportedKeys_absent bucket rs p :
  p ∉ reportedKeys decodeDirObject bucket rs →
  sumN (setTotal decodeDirObject bucket p <$> rs) = 0.
Proof.
  induction rs as [|r rs IH]; [done|].
  rewrite reportedKeys_cons, not_elem_of_app. intros [Hr Hrs].
  rewrite fmap_cons. unfold sumN in *. simpl. rewrite IH by done.
  unfold setTotal. by rewrite prefixTotal_absent.
Qed.

(** The inner loop over a list of erasure sets. *)
Lemma foldl_scanSet_lookup bucket ers st p :
  let rs := loadOutcomes bucket (cache st) ers in
  m (foldl (scanSet decodeDirObject range bucket) st ers) !! p =
  added (m st !! p) (reportedKeys decodeDirObject bucket rs) p
    (sumN (setTotal decodeDirObject bucket p <$> rs)).
Proof.
  revert st. induction ers as [|er ers IH]; intros st; simpl.
  - by rewrite added_nil.
  - destruct (scanSet_spec bucket st er p) as [Hc Hm]. simpl in Hc, Hm.
    rewrite IH, Hc, Hm, added_added.
    + by rewrite reportedKeys_cons.
    + apply prefixTotal_absent.
    + apply reportedKeys_absent.
Qed.

(** The two nested loops visit the sets of all pools in order. *)
Lemma scanPools_allSets bucket st pools :
  scanPools decodeDirObject range bucket st pools =
  foldl (scanSet decodeDirObject range bucket) st (concat (sets <$> pools)).
Proof.
  unfold scanPools. revert st.
  induction pools as [|pool pools IH]; intros st; simpl; [done|].
  by rewrite foldl_app, IH.
Qed.

(** Every entry of the result of the function on an erasure-coded layer. *)
Lemma loadPrefixUsage_lookup (objAPI : O) z bucket :
  asErasureServerPools objAPI = Some z →
  ∃ res : gmap string N,
    (loadPrefixUsageFromBackend decodeDirObject range objAPI bucket).1 =
    (Some res, None) ∧
    ∀ p, res !! p =
         expectedUsage decodeDirObject bucket
           (loadOutcomes bucket dataUsageCache_zero (allSets z)) p.
Proof.
  intros Hz. unfold loadPrefixUsageFromBackend. rewrite Hz. simpl.
  eexists. split; [reflexivity|]. intros p.
  rewrite scanPools_allSets, foldl_scanSet_lookup. simpl.
  unfold expectedUsage, added, allSets. rewrite lookup_empty. simpl.
  by rewrite N.add_0_l.
Qed.

(** A set that does not count leaves no keyed entry. *)
Lemma setEntries_skip bucket r :
  contributes bucket r = false → setEntries decodeDirObject bucket r = [].
Proof.
  unfold contributes, setEntries. destruct r.2; [done|].
  destruct (find r.1 bucket) as [root|] eqn:Hf; [|done].
  intros Hc. apply bool_decide_eq_false in Hc. destruct Hc. by eexists.
Qed.

Lemma setTotal_skip bucket p r :
  contributes bucket r = false → setTotal decodeDirObject bucket p r = 0.
Proof. intros Hc. unfold setTotal. by rewrite setEntries_skip. Qed.

(** Sets that do not count can be left out of the sum and of the keys. *)
Lemma sum_setTotal_filter bucket p rs :
  sumN (setTotal decodeDirObject bucket p <$>
          filter (λ r, contributes bucket r = true) rs) =
  sumN (setTotal decodeDirObject bucket p <$> rs).
Proof.
  induction rs as [|r rs IH]; [done|].
  rewrite filter_cons. destruct (decide (contributes bucket r = true)) as [|Hc].
  - rewrite !fmap_cons. unfold sumN in *. simpl. by rewrite IH.
  - rewrite fmap_cons. unfold sumN in *. simpl. rewrite IH.
    apply not_true_is_false in Hc. by rewrite setTotal_skip.
Qed.

Lemma reportedKeys_filter bucket rs :
  reportedKeys decodeDirObject bucket
    (filter (λ r, contributes bucket r = true) rs) =
  reportedKeys decodeDirObject bucket rs.
Proof.
  induction rs as [|r rs IH]; [done|].
  rewrite filter_cons. destruct (decide (contributes bucket r = true)) as [|Hc].
  - by rewrite !reportedKeys_cons, IH.
  - rewrite reportedKeys_cons, IH.
    apply not_true_is_false in Hc. by rewrite setEntries_skip.
Qed.

Lemma expectedUsage_filter bucket rs p :
  expectedUsage decodeDirObject bucket
    (filter (λ r, contributes bucket r = true) rs) p =
  expectedUsage decodeDirObject bucket rs p.
Proof.
  unfold expectedUsage. by rewrite reportedKeys_filter, sum_setTotal_filter.
Qed.

(** The body of the loop on a set that does not count: the load is made,
    the map is left as it was. *)
Lemma scanSet_skip bucket st er :
  let name := bucket +:+ slashSeparator +:+ dataUsageCacheName in
  contributes bucket (load (cache st) er name) = false →
  scanSet decodeDirObject range bucket st er =
  {| cache := (load (cache st) er name).1;
     m := m st;
     loads := loads st ++ [(er, name)] |}.
Proof.
  unfold scanSet, contributes. simpl.
  destruct (load _ er _) as [c [e|]]; simpl; [done|].
  destruct (find c bucket) as [root|]; [|done].
  intros Hc. apply bool_decide_eq_false in Hc. destruct Hc. by eexists.
Qed.

Lemma foldl_scanSet_skip bucket ers st :
  Forall (λ r, contributes bucket r = false)
         (loadOutcomes bucket (cache st) ers) →
  m (foldl (scanSet decodeDirObject range bucket) st ers) = m st.
Proof.
  revert st. induction ers as [|er ers IH]; intros st; simpl; [done|].
  intros [Hr Hrs]%Forall_cons.
  pose proof (scanSet_skip bucket st er Hr) as Hs. simpl in Hs.
  rewrite IH; rewrite Hs; done.
Qed.

Lemma scanSet_loads bucket st er :
  loads (scanSet decodeDirObject range bucket st er) =
  loads st ++ [(er, bucket +:+ slashSeparator +:+ dataUsageCacheName)].
Proof.
  unfold scanSet. destruct (load _ er _) as [c [e|]]; simpl; [done|].
  by destruct (find c bucket).
Qed.

(** The loads made: one per set, in order, under the snapshot name of the
    bucket. *)
Lemma foldl_scanSet_loads bucket ers st :
  loads (foldl (scanSet decodeDirObject range bucket) st ers) =
  loads st ++
  ((λ er, (er, bucket +:+ slashSeparator +:+ dataUsageCacheName)) <$> ers).
Proof.
  revert st. induction ers as [|er ers IH]; intros st; simpl.
  - by rewrite app_nil_r.
  - by rewrite IH, scanSet_loads, <- app_assoc.
Qed.

Lemma contributes_false bucket (r : dataUsageCache * option error) :
  contributes bucket r = false ↔ is_Some r.2 ∨ find r.1 bucket = None.
Proof.
  unfold contributes. destruct r.2 as [e|]; simpl.
  - split; [intros _; left; by eexists | done].
  - rewrite bool_decide_eq_false. split.
    + intros Hn. right. destruct (find r.1 bucket); [|done].
      destruct Hn. by eexists.
    + intros [[? ?]|Hf] [? ?]; congruence.
Qed.

(** The expected entries depend on the outcomes through their keyed entries
    only. *)
Lemma expectedUsage_ext bucket p
    (rs1 rs2 : list (dataUsageCache * option error)) :
  setEntries decodeDirObject bucket <$> rs1 =
  setEntries decodeDirObject bucket <$> rs2 →
  expectedUsage decodeDirObject bucket rs1 p =
  expectedUsage decodeDirObject bucket rs2 p.
Proof.
  intros He. unfold expectedUsage, reportedKeys. rewrite He.
  assert (Hs : ∀ rs : list (dataUsageCache * option error),
            setTotal decodeDirObject bucket p <$> rs =
            prefixTotal p <$> (setEntries decodeDirObject bucket <$> rs)).
  { intros rs. induction rs as [|r rs IH]; [done|].
    rewrite !fmap_cons. by rewrite IH. }
  by rewrite !Hs, He.
Qed.

Lemma allSets_countingSets bucket z :
  allSets (countingSets bucket z) =
  filter (λ er, keepsUsage bucket er = true) (allSets z).
Proof.
  unfold allSets, countingSets. simpl.
  induction (serverPools z) as [|pool pools IH]; simpl; [done|].
  rewrite filter_app. f_equal. apply IH.
Qed.

(** When loads replace the cache, leaving out the sets that do not count
    leaves the keyed entries of the others as they were. *)
Lemma loadOutcomes_counting bucket ers (c c' : dataUsageCache) :
  load_replaces →
  setEntries decodeDirObject bucket <$>
    filter (λ r, contributes bucket r = true) (loadOutcomes bucket c ers) =
  setEntries decodeDirObject bucket <$>
    loadOutcomes bucket c'
      (filter (λ er, keepsUsage bucket er = true) ers).
Proof.
  intros Hrep. revert c c'. induction ers as [|er ers IH]; intros c c'.
  { done. }
  cbn [loadOutcomes]. set (name := bucket +:+ slashSeparator +:+ dataUsageCacheName).
  assert (Hsame : ∀ c1 c2, contributes bucket (load c1 er name) =
                           contributes bucket (load c2 er name)).
  { intros c1 c2. destruct (Hrep c1 c2 er name) as [He Hc].
    unfold contributes. rewrite <- He.
    destruct (load c1 er name).2; [done|]. by rewrite Hc. }
  rewrite !filter_cons. unfold keepsUsage at 1. fold name.
  destruct (decide (contributes bucket (load c er name) = true)) as [Hk|Hk];
    destruct (decide (contributes bucket (load dataUsageCache_zero er name)
                      = true)) as [Hk'|Hk'].
  - cbn [loadOutcomes]. fold name. rewrite !fmap_cons. f_equal.
    + destruct (Hrep c c' er name) as [He Hc].
      unfold setEntries. rewrite <- He.
      destruct (load c er name).2; [done|]. by rewrite Hc.
    + apply IH.
  - destruct Hk'. by rewrite (Hsame dataUsageCache_zero c).
  - destruct Hk. by rewrite (Hsame c dataUsageCache_zero).
  - apply IH.
Qed.

(** ** Properties of loadPrefixUsageFromBackend *)

(** C7: on an object layer that is not the erasure-coded server pools, the
    function returns an allocated empty map and a nil error, and loads no
    snapshot at all. *)
Theorem loadPrefixUsage_other_layer (objAPI : O) bucket :
  asErasureServerPools objAPI = None →
  loadPrefixUsageFromBackend decodeDirObject range objAPI bucket =
  ((Some ∅, None), []).
Proof.
  intros Hz. unfold loadPrefixUsageFromBackend. by rewrite Hz.
Qed.

(** C10: the error returned by the function is nil for every object layer
    and every bucket, whatever the sets hold.  When every load fails (all
    snapshots corrupted), or no set has a root for the bucket, the result is
    the same allocated empty map with a nil error, so the two cannot be told
    apart. *)
Theorem loadPrefixUsage_error_is_nil :
  (∀ (objAPI : O) bucket,
     (loadPrefixUsageFromBackend decodeDirObject range objAPI bucket).1.2
     = None) ∧
  (∀ (objAPI : O) z bucket,
     asErasureServerPools objAPI = Some z →
     Forall (λ r, is_Some r.2 ∨ find r.1 bucket = None)
            (loadOutcomes bucket dataUsageCache_zero (allSets z)) →
     (loadPrefixUsageFromBackend decodeDirObject range objAPI bucket).1
     = (Some ∅, None)).
Proof.
  split.
  - intros objAPI bucket. unfold loadPrefixUsageFromBackend.
    by destruct (asErasureServerPools objAPI).
  - intros objAPI z bucket Hz Hall.
    unfold loadPrefixUsageFromBackend. rewrite Hz. simpl.
    rewrite scanPools_allSets, foldl_scanSet_skip; [done|]. simpl.
    eapply Forall_impl; [exact Hall|].
    intros r Hr. by apply contributes_false.
Qed.

(** C6: a set whose snapshot load fails adds nothing to the map; every set
    is still loaded, in order, and no error is returned; the result holds,
    for every key, the sum over the sets that did load and have a root for
    the bucket; and when loads replace the cache, it is the result obtained
    on the server pools without the other sets. *)
Theorem loadPrefixUsage_skips_failed_loads :
  (∀ bucket st er,
     is_Some (load (cache st) er
                (bucket +:+ slashSeparator +:+ dataUsageCacheName)).2 →
     m (scanSet decodeDirObject range bucket st er) = m st) ∧
  (∀ (objAPI : O) z bucket,
     asErasureServerPools objAPI = Some z →
     let r := loadPrefixUsageFromBackend decodeDirObject range objAPI bucket in
     r.2 = ((λ er, (er, bucket +:+ slashSeparator +:+ dataUsageCacheName))
              <$> allSets z) ∧
     ∃ res : gmap string N,
       r.1 = (Some res, None) ∧
       ∀ p, res !! p =
            expectedUsage decodeDirObject bucket
              (filter (λ r, contributes bucket r = true)
                 (loadOutcomes bucket dataUsageCache_zero (allSets z))) p) ∧
  (∀ (objAPI objAPI' : O) z bucket,
     load_replaces →
     asErasureServerPools objAPI = Some z →
     asErasureServerPools objAPI' = Some (countingSets bucket z) →
     (loadPrefixUsageFromBackend decodeDirObject range objAPI bucket).1 =
     (loadPrefixUsageFromBackend decodeDirObject range objAPI' bucket).1).
Proof.
  split; [|split].
  - intros bucket st er Herr.
    rewrite scanSet_skip; [done|]. apply contributes_false. by left.
  - intros objAPI z bucket Hz r. split.
    + subst r. unfold loadPrefixUsageFromBackend. rewrite Hz. simpl.
      by rewrite scanPools_allSets, foldl_scanSet_loads.
    + destruct (loadPrefixUsage_lookup objAPI z bucket Hz) as (res & Hr & Hl).
      exists res. split; [exact Hr|].
      intros p. by rewrite Hl, expectedUsage_filter.
  - intros objAPI objAPI' z bucket Hrep Hz Hz'.
    destruct (loadPrefixUsage_lookup objAPI z bucket Hz) as (res & Hr & Hl).
    destruct (loadPrefixUsage_lookup objAPI' _ bucket Hz')
      as (res' & Hr' & Hl').
    rewrite Hr, Hr'. do 2 f_equal. apply map_eq. intros p.
    rewrite Hl, Hl', <- expectedUsage_filter, allSets_countingSets.
    apply expectedUsage_ext. by apply loadOutcomes_counting.
Qed.

(** C1: on an erasure-coded layer the function returns a map and a nil
    error; a key is in the map exactly when some set that loaded and has a
    root for the bucket reports it, and its value is the sum, over those
    sets, of the sizes of the flattened entries reported under the key
    (the identifier without the bucket prefix, directory markers decoded).
    The sum is the one of the [uint64] accumulator: it is the exact sum as
    long as that is below [2^64].  In the scenario of the specification
    (one set with bucket/x 100 and bucket/y 50, one with bucket/x 20, one
    without a snapshot) the result is x 120, y 50. *)
Theorem loadPrefixUsage_sums_over_sets :
  (∀ (objAPI : O) z bucket,
     asErasureServerPools objAPI = Some z →
     let counting :=
       filter (λ r, contributes bucket r = true)
         (loadOutcomes bucket dataUsageCache_zero (allSets z)) in
     ∃ res : gmap string N,
       (loadPrefixUsageFromBackend decodeDirObject range objAPI bucket).1 =
       (Some res, None) ∧
       ∀ p,
         let total :=
           sumN (setTotal decodeDirObject bucket p <$> counting) in
         (p ∉ reportedKeys decodeDirObject bucket counting →
          res !! p = None) ∧
         (p ∈ reportedKeys decodeDirObject bucket counting →
          res !! p = Some (total mod uint64_modulus)) ∧
         (p ∈ reportedKeys decodeDirObject bucket counting →
          total < uint64_modulus → res !! p = Some total)) ∧
  (∀ (objAPI : O) z erA erB erC cA cB rootA rootB eAx eAy eBx,
     let name := "bucket" +:+ slashSeparator +:+ dataUsageCacheName in
     asErasureServerPools objAPI = Some z →
     allSets z = [erA; erB; erC] →
     (∀ c, load c erA name = (cA, None)) →
     find cA "bucket" = Some rootA →
     flattenChildrens cA rootA = {["bucket/x" := eAx; "bucket/y" := eAy]} →
     dataUsageEntry.Size eAx = 100%Z →
     dataUsageEntry.Size eAy = 50%Z →
     (∀ c, load c erB name = (cB, None)) →
     find cB "bucket" = Some rootB →
     flattenChildrens cB rootB = {["bucket/x" := eBx]} →
     dataUsageEntry.Size eBx = 20%Z →
     (∀ c, is_Some (load c erC name).2 ∨
           find (load c erC name).1 "bucket" = None) →
     decodeDirObject "x" = "x" →
     decodeDirObject "y" = "y" →
     (loadPrefixUsageFromBackend decodeDirObject range objAPI "bucket").1 =
     (Some {["x" := 120; "y" := 50]}, None)).
Proof.
  split.
  - intros objAPI z bucket Hz counting.
    destruct (loadPrefixUsage_lookup objAPI z bucket Hz) as (res & Hr & Hl).
    exists res. split; [exact Hr|]. intros p total.
    specialize (Hl p). rewrite <- expectedUsage_filter in Hl.
    fold counting in Hl. unfold expectedUsage in Hl. fold total in Hl.
    split; [|split].
    + intros Hout. by rewrite Hl, decide_False.
    + intros Hin. by rewrite Hl, decide_True.
    + intros Hin Hlt. by rewrite Hl, decide_True, N.mod_small.
  - intros objAPI z erA erB erC cA cB rootA rootB eAx eAy eBx name
      Hz Hsets HA HfA HflA HAx HAy HB HfB HflB HBx HC Hdx Hdy.
    destruct (loadPrefixUsage_lookup objAPI z "bucket" Hz) as (res & Hr & Hl).
    rewrite Hr. do 2 f_equal. apply map_eq. intros p. rewrite Hl.
    rewrite Hsets. cbn [loadOutcomes]. fold name. rewrite HA, HB. simpl.
    set (rC := load cB erC name).
    assert (HrC : setEntries decodeDirObject "bucket" rC = []).
    { apply setEntries_skip, contributes_false, HC. }
    assert (HeA : setEntries decodeDirObject "bucket" (cA, None) =
                  [("y", 50); ("x", 100)]).
    { unfold setEntries. simpl. rewrite HfA, HflA.
      unfold keyedEntries, prefixOf.
      change (map_to_list ({["bucket/x" := eAx; "bucket/y" := eAy]}
                : gmap string dataUsageEntry.t))
        with [("bucket/y", eAy); ("bucket/x", eAx)].
      simpl. rewrite HAx, HAy.
      change (TrimPrefix "bucket/y" ("bucket" +:+ slashSeparator)) with "y".
      change (TrimPrefix "bucket/x" ("bucket" +:+ slashSeparator)) with "x".
      by rewrite Hdx, Hdy. }
    assert (HeB : setEntries decodeDirObject "bucket" (cB, None) =
                  [("x", 20)]).
    { unfold setEntries. simpl. rewrite HfB, HflB.
      unfold keyedEntries, prefixOf.
      change (map_to_list ({["bucket/x" := eBx]}
                : gmap string dataUsageEntry.t))
        with [("bucket/x", eBx)].
      simpl. rewrite HBx.
      change (TrimPrefix "bucket/x" ("bucket" +:+ slashSeparator)) with "x".
      by rewrite Hdx. }
    unfold expectedUsage, reportedKeys, setTotal. simpl.
    rewrite HeA, HeB, HrC. simpl.
    destruct (decide (p = "x")) as [->|Hx]; [reflexivity|].
    destruct (decide (p = "y")) as [->|Hy]; [reflexivity|].
    rewrite decide_False.
    + rewrite lookup_insert_ne by done. by rewrite lookup_singleton_ne.
    + rewrite !elem_of_cons. intros [?|[?|[?|Hn]]]; try congruence.
      by apply elem_of_nil in Hn.
Qed.

End PrefixUsage.

(** ** The consumer loop *)

Section Store.
Context {error Reader hashReader PutObjReader erasureObjects O : Type}.
Context `{!ObjectLayer (error := error) (Reader := Reader)
            (PutObjReader := PutObjReader)
            (erasureObjects := erasureObjects) O}.
Variable minioMetaBucket bucketMetaPrefix : string.
Variable isErrBucketNotFound : option error → bool.
Variable Marshal : DataUsageInfo → error + list Byte.byte.
Variable NewReader :
  list Byte.byte → Z → string → string → Z → error + hashReader.
Variable NewPutObjReader : hashReader → PutObjReader.

#[local] Abbreviation bucketName :=
  (dataUsageBucket minioMetaBucket bucketMetaPrefix).
#[local] Abbreviation step :=
  (storeOne minioMetaBucket bucketMetaPrefix isErrBucketNotFound Marshal
     NewReader NewPutObjReader).
#[local] Abbreviation run :=
  (storeDataUsageInBackend minioMetaBucket bucketMetaPrefix
     isErrBucketNotFound Marshal NewReader NewPutObjReader).
#[local] Abbreviation block :=
  (attemptCalls minioMetaBucket bucketMetaPrefix isErrBucketNotFound Marshal
     NewReader NewPutObjReader).
#[local] Abbreviation after :=
  (backendAfter minioMetaBucket bucketMetaPrefix isErrBucketNotFound Marshal
     NewReader NewPutObjReader).
#[local] Abbreviation blocks :=
  (attempts minioMetaBucket bucketMetaPrefix isErrBucketNotFound Marshal
     NewReader NewPutObjReader).
#[local] Abbreviation payload := (putPayload Marshal NewReader NewPutObjReader).

Implicit Types
  (st : storeRun (error := error) (PutObjReader := PutObjReader) (O := O))
  (d : DataUsageInfo).

(** An iteration appends its calls to the ones made before and does not
    look at them. *)
Lemma storeOne_calls st d :
  step st d =
  {| backend := after (backend st) d;
     calls := calls st ++ block (backend st) d |}.
Proof.
  unfold attemptCalls, backendAfter, storeOne, record. simpl.
  destruct (Marshal d) as [e|js]; simpl.
  { by rewrite <- app_assoc. }
  destruct (NewReader js _ _ _ _) as [e|r]; simpl.
  { by rewrite <- !app_assoc. }
  destruct (PutObject (backend st) _ _ _) as [o err]; simpl.
  destruct (negb (isErrBucketNotFound err)); simpl;
    by rewrite <- !app_assoc.
Qed.

Lemma foldl_storeOne st dui :
  foldl step st dui =
  {| backend := backend (foldl step st dui);
     calls := calls st ++ concat (blocks (backend st) dui) |}.
Proof.
  revert st. induction dui as [|d dui IH]; intros st; simpl.
  - rewrite app_nil_r. by destruct st.
  - rewrite IH. rewrite storeOne_calls at 2. simpl.
    f_equal. rewrite storeOne_calls at 1. simpl. by rewrite <- app_assoc.
Qed.

(** The shape of the calls made for one report. *)
Lemma attemptCalls_shape (o : O) d :
  ∃ tl, block o d = CallMarshal d :: tl ∧
        filter (λ c, isMarshalCall c = true) tl = [] ∧
        filter (λ c, isPutCall c = true) tl =
        match payload d with
        | None => []
        | Some por => [CallPutObject bucketName dataUsageObjName por]
        end.
Proof.
  unfold attemptCalls, putPayload, storeOne, record. simpl.
  destruct (Marshal d) as [e|js]; simpl.
  { eexists. split; [reflexivity|]. done. }
  destruct (NewReader js _ _ _ _) as [e|r]; simpl.
  { eexists. split; [reflexivity|]. done. }
  destruct (PutObject o _ _ _) as [o' err]; simpl.
  destruct (negb (isErrBucketNotFound err)); simpl;
    (eexists; split; [reflexivity|]; done).
Qed.

Lemma marshal_calls_of_blocks (o : O) dui :
  filter (λ c, isMarshalCall c = true) (concat (blocks o dui)) =
  CallMarshal <$> dui.
Proof.
  revert o. induction dui as [|d dui IH]; intros o; simpl; [done|].
  destruct (attemptCalls_shape o d) as (tl & Hb & Hm & _).
  rewrite filter_app, IH, Hb, filter_cons. simpl. by rewrite Hm.
Qed.

Lemma put_calls_of_blocks (o : O) dui :
  filter (λ c, isPutCall c = true) (concat (blocks o dui)) =
  omap (λ d, CallPutObject bucketName dataUsageObjName <$> payload d) dui.
Proof.
  revert o. induction dui as [|d dui IH]; intros o; simpl; [done|].
  destruct (attemptCalls_shape o d) as (tl & Hb & _ & Hp).
  rewrite filter_app, IH, Hb, filter_cons. simpl. rewrite Hp.
  by destruct (payload d).
Qed.

Lemma run_calls (objAPI : O) dui :
  calls (run objAPI dui) = concat (blocks objAPI dui).
Proof.
  unfold storeDataUsageInBackend. by rewrite foldl_storeOne.
Qed.

Lemma blocks_shape (o : O) dui :
  Forall2 (λ d blk,
             ∃ tl, blk = CallMarshal d :: tl ∧
                   filter (λ c, isMarshalCall c = true) tl = [] ∧
                   (length (filter (λ c, isPutCall c = true) tl) ≤ 1)%nat)
          dui (blocks o dui).
Proof.
  revert o. induction dui as [|d dui IH]; intros o; simpl; constructor.
  - destruct (attemptCalls_shape o d) as (tl & Hb & Hm & Hp).
    exists tl. split; [done|]. split; [done|]. rewrite Hp.
    destruct (payload d); simpl; lia.
  - apply IH.
Qed.

(** ** Properties of storeDataUsageInBackend *)

(** C9: a run over the [N] reports sent before the channel is closed makes
    its calls in [N] consecutive blocks, the i-th block being the store
    attempt for the i-th report: it opens with the serialization of that
    report, serializes no other, and calls [PutObject] at most once.  So
    the reports are taken in the order received, one at a time; nothing
    follows the last block.  [PutObject] is called once for every report
    that serializes, so [N] times when all do. *)
Theorem store_one_attempt_per_report (objAPI : O) (dui : list DataUsageInfo) :
  let r := run objAPI dui in
  calls r = concat (blocks objAPI dui) ∧
  Forall2 (λ d blk,
             ∃ tl, blk = CallMarshal d :: tl ∧
                   filter (λ c, isMarshalCall c = true) tl = [] ∧
                   (length (filter (λ c, isPutCall c = true) tl) ≤ 1)%nat)
          dui (blocks objAPI dui) ∧
  filter (λ c, isMarshalCall c = true) (calls r) = CallMarshal <$> dui ∧
  filter (λ c, isPutCall c = true) (calls r) =
    omap (λ d, CallPutObject bucketName dataUsageObjName <$> payload d) dui ∧
  (Forall (λ d, is_Some (payload d)) dui →
   length (filter (λ c, isPutCall c = true) (calls r)) = length dui).
Proof.
  intros r. subst r. rewrite run_calls.
  split; [done|]. split; [apply blocks_shape|].
  split; [apply marshal_calls_of_blocks|].
  split; [apply put_calls_of_blocks|].
  intros Hall. rewrite put_calls_of_blocks.
  induction Hall as [|d dui [por Hd] _ IH]; [done|].
  cbn [omap list_omap]. rewrite Hd. cbn [fmap option_fmap option_map].
  cbn [length]. f_equal. exact IH.
Qed.

(** C8: a report that does not serialize, or for which no hash reader can
    be built, is logged and not written, and the backend is left as it was;
    a failed write is logged unless it is of the bucket-not-found class, in
    which case no call to the logger is made; and whatever the failures,
    every report of the channel is still attempted, in order, and every
    report that serializes is handed to [PutObject]. *)
Theorem store_failures_do_not_stop_the_loop :
  (∀ st d e,
     Marshal d = inl e →
     step st d =
     {| backend := backend st;
        calls := calls st ++ [CallMarshal d; CallLogIf (Some e)] |}) ∧
  (∀ st d js e,
     Marshal d = inr js →
     NewReader js (Z.of_nat (length js)) "" "" (Z.of_nat (length js))
       = inl e →
     step st d =
     {| backend := backend st;
        calls := calls st ++ [CallMarshal d;
                              CallNewReader js (Z.of_nat (length js));
                              CallLogIf (Some e)] |}) ∧
  (∀ st d js r o' e,
     Marshal d = inr js →
     NewReader js (Z.of_nat (length js)) "" "" (Z.of_nat (length js))
       = inr r →
     PutObject (backend st) bucketName dataUsageObjName (NewPutObjReader r)
       = (o', Some e) →
     step st d =
     {| backend := o';
        calls := calls st ++
                 [CallMarshal d;
                  CallNewReader js (Z.of_nat (length js));
                  CallPutObject bucketName dataUsageObjName
                    (NewPutObjReader r)] ++
                 (if isErrBucketNotFound (Some e) then []
                  else [CallLogIf (Some e)]) |}) ∧
  (∀ (objAPI : O) dui,
     filter (λ c, isMarshalCall c = true) (calls (run objAPI dui)) =
     CallMarshal <$> dui ∧
     filter (λ c, isPutCall c = true) (calls (run objAPI dui)) =
     omap (λ d, CallPutObject bucketName dataUsageObjName <$> payload d) dui).
Proof.
  split; [|split; [|split]].
  - intros st d e Hm. unfold storeOne, record. rewrite Hm. simpl.
    by rewrite <- app_assoc.
  - intros st d js e Hm Hr. unfold storeOne, record. rewrite Hm. simpl.
    rewrite Hr. simpl. by rewrite <- !app_assoc.
  - intros st d js r o' e Hm Hr Hp. unfold storeOne, record.
    rewrite Hm. simpl. rewrite Hr. simpl. rewrite Hp. simpl.
    destruct (isErrBucketNotFound (Some e)); simpl;
      by rewrite <- !app_assoc.
  - intros objAPI dui. rewrite run_calls.
    split; [apply marshal_calls_of_blocks | apply put_calls_of_blocks].
Qed.

End Store.

(** ** Loading the report *)

(** A map built by inserting, for each entry of a list with distinct keys,
    the image of its value. *)
Lemma foldl_insert_lookup {A B : Type} (f : A → B) (l : list (string * A))
    (acc : gmap string B) (k : string) :
  NoDup l.*1 →
  foldl (λ acc kv, <[kv.1 := f kv.2]> acc) acc l !! k =
  match (list_to_map l : gmap string A) !! k with
  | Some v => Some (f v)
  | None => acc !! k
  end.
Proof.
  revert acc. induction l as [|[k0 v0] l IH]; intros acc Hnd; simpl.
  { by rewrite lookup_empty. }
  apply NoDup_cons in Hnd as [Hk0 Hnd]. rewrite IH by done.
  destruct (decide (k0 = k)) as [->|Hne].
  - rewrite lookup_insert_eq.
    rewrite (not_elem_of_list_to_map_1 l k) by done.
    by rewrite lookup_insert_eq.
  - rewrite (lookup_insert_ne (list_to_map l)) by done.
    destruct (list_to_map l !! k); [done|].
    by rewrite lookup_insert_ne.
Qed.

Lemma foldl_insert_range {A B : Type} (f : A → B) (range : rangeOrder)
    (m : gmap string A) :
  range_sound range →
  foldl (λ acc kv, <[kv.1 := f kv.2]> acc) ∅ (range A m) = f <$> m.
Proof.
  intros Hr. apply map_eq. intros k.
  assert (Hnd : NoDup (range A m).*1).
  { rewrite (Hr A m). apply NoDup_fst_map_to_list. }
  rewrite foldl_insert_lookup by done.
  rewrite (list_to_map_proper _ (map_to_list m)), list_to_map_to_list;
    [|done|apply Hr].
  rewrite lookup_fmap, lookup_empty. by destruct (m !! k).
Qed.

Section Load.
Context {error Reader PutObjReader erasureObjects O : Type}.
Context `{!ObjectLayer (error := error) (Reader := Reader)
            (PutObjReader := PutObjReader)
            (erasureObjects := erasureObjects) O}.
Variable minioMetaBucket bucketMetaPrefix : string.
Variable isErrObjectNotFound isErrBucketNotFound : option error → bool.
Variable toObjectErr : option error → list string → option error.
Variable getReplicationConfig : string → error + replicationConfig.
Variable Decode : Reader → error + DataUsageInfo.
Variable range : rangeOrder.
Hypothesis range_ok : range_sound range.

#[local] Abbreviation reportBucket :=
  (dataUsageBucket minioMetaBucket bucketMetaPrefix).
#[local] Abbreviation loadReport :=
  (loadDataUsageFromBackend minioMetaBucket bucketMetaPrefix
     isErrObjectNotFound isErrBucketNotFound toObjectErr
     getReplicationConfig Decode range).
#[local] Abbreviation migrate := (migrateReplicationV1 getReplicationConfig).

Lemma usageOfSizes_range (sizes : gomap N) :
  usageOfSizes (rangeOf range sizes) =
  BucketUsageInfo_ofSize <$> default ∅ sizes.
Proof.
  unfold usageOfSizes. destruct sizes as [g|]; simpl.
  - by apply foldl_insert_range.
  - by rewrite fmap_empty.
Qed.

Lemma sizesOfUsage_range (usage : gomap BucketUsageInfo) :
  sizesOfUsage (rangeOf range usage) = Size <$> default ∅ usage.
Proof.
  unfold sizesOfUsage. destruct usage as [g|]; simpl.
  - by apply foldl_insert_range.
  - by rewrite fmap_empty.
Qed.

Lemma len_zero_empty {V : Type} (gm : gomap V) :
  len gm = 0%nat → default ∅ gm = ∅.
Proof.
  destruct gm as [g|]; simpl; [|done]. apply map_size_empty_iff.
Qed.

Lemma fillBucketsUsage_usage d :
  BucketsUsage (fillBucketsUsage range d) =
  if decide (len (BucketsUsage d) = 0%nat)
  then Some (BucketUsageInfo_ofSize <$> default ∅ (BucketSizes d))
  else BucketsUsage d.
Proof.
  unfold fillBucketsUsage. case_decide; [|done].
  unfold withBucketsUsage. cbn [BucketsUsage].
  by rewrite usageOfSizes_range.
Qed.

Lemma fillBucketsUsage_sizes d :
  BucketSizes (fillBucketsUsage range d) = BucketSizes d.
Proof. unfold fillBucketsUsage. by case_decide. Qed.

Lemma fillBucketSizes_usage d :
  BucketsUsage (fillBucketSizes range d) = BucketsUsage d.
Proof. unfold fillBucketSizes. by case_decide. Qed.

Lemma fillBucketSizes_sizes d :
  BucketSizes (fillBucketSizes range d) =
  if decide (len (BucketSizes d) = 0%nat)
  then Some (Size <$> default ∅ (BucketsUsage d))
  else BucketSizes d.
Proof.
  unfold fillBucketSizes. case_decide; [|done].
  unfold withBucketSizes. cbn [BucketSizes].
  by rewrite sizesOfUsage_range.
Qed.

(** The last loop leaves the other fields alone; on success the report is
    the filled one with a new [ReplicationInfo]. *)
Lemma loadReport_success (objAPI : O) r d d' :
  GetObjectNInfo objAPI reportBucket dataUsageObjName = inr r →
  Decode r = inr d →
  loadReport objAPI = (d', None) →
  ∃ ri,
    migrate (ReplicationInfo d)
      (rangeOf range
         (BucketsUsage (fillBucketSizes range (fillBucketsUsage range d))))
    = inr ri ∧
    d' = withReplicationInfo
           (fillBucketSizes range (fillBucketsUsage range d)) ri.
Proof.
  intros Hg Hd. unfold loadDataUsageFromBackend. rewrite Hg, Hd.
  assert (Hri : ReplicationInfo
                  (fillBucketSizes range (fillBucketsUsage range d))
                = ReplicationInfo d).
  { unfold fillBucketSizes, fillBucketsUsage.
    repeat case_decide; reflexivity. }
  rewrite Hri.
  destruct (migrate _ _) as [e|ri]; [done|].
  intros [= <-]. by exists ri.
Qed.

(** The error of the last loop: a qualifying bucket whose lookup fails
    stops it, whatever the order. *)
Lemma migrate_fails ri (l : list (string * BucketUsageInfo)) b bui e :
  (b, bui) ∈ l →
  hasReplicationV1 bui = true →
  getReplicationConfig b = inl e →
  ∃ b' e', getReplicationConfig b' = inl e' ∧ migrate ri l = inl e'.
Proof.
  intros Hin Hq He. revert ri.
  induction l as [|[b0 bui0] l IH]; intros ri.
  { by apply elem_of_nil in Hin. }
  simpl. apply elem_of_cons in Hin as [[= <- <-]|Hin].
  - rewrite Hq, He. by exists b, e.
  - destruct (hasReplicationV1 bui0).
    + destruct (getReplicationConfig b0) as [e0|cfg] eqn:Hc.
      * by exists b0, e0.
      * by apply IH.
    + by apply IH.
Qed.

(** What the last loop leaves: the map it was given when no bucket
    qualifies, and otherwise a map with the single entry of the bucket that
    qualified last. *)
Lemma migrate_last_only ri (l : list (string * BucketUsageInfo)) ri' :
  migrate ri l = inr ri' →
  match last (filter (λ kv, hasReplicationV1 kv.2 = true) l) with
  | None => ri' = ri
  | Some (b, bui) =>
      ∃ cfg, getReplicationConfig b = inr cfg ∧
             ri' = Some {[RoleArn cfg := targetOfV1 bui]}
  end.
Proof.
  revert ri. induction l as [|[b0 bui0] l IH]; intros ri; simpl.
  { by intros [= <-]. }
  rewrite filter_cons. simpl.
  destruct (hasReplicationV1 bui0) eqn:Hq; simpl.
  - destruct (getReplicationConfig b0) as [e0|cfg] eqn:Hc; [done|].
    intros Hm. specialize (IH _ Hm). rewrite last_cons.
    destruct (last _) as [[b bui]|]; [done|].
    exists cfg. split; [done|]. rewrite IH. by rewrite insert_empty.
  - apply IH.
Qed.

(** ** Properties of loadDataUsageFromBackend *)

(** C4: when the read fails with an error of the object-not-found or
    bucket-not-found class, the function returns the zero report and a nil
    error; for any other read failure it returns the zero report and what
    [toObjectErr] makes of the error, an error as long as [toObjectErr]
    keeps an error an error; and when decoding fails it returns the zero
    report and the decoding error. *)
Theorem loadDataUsage_absent_or_failed (objAPI : O) :
  (∀ err,
     GetObjectNInfo objAPI reportBucket dataUsageObjName = inl err →
     isErrObjectNotFound (Some err) || isErrBucketNotFound (Some err)
       = true →
     loadReport objAPI = (DataUsageInfo_zero, None)) ∧
  (∀ err,
     GetObjectNInfo objAPI reportBucket dataUsageObjName = inl err →
     isErrObjectNotFound (Some err) || isErrBucketNotFound (Some err)
       = false →
     loadReport objAPI =
       (DataUsageInfo_zero,
        toObjectErr (Some err) [reportBucket; dataUsageObjName]) ∧
     ((∀ e params, is_Some (toObjectErr (Some e) params)) →
      ∃ e', loadReport objAPI = (DataUsageInfo_zero, Some e'))) ∧
  (∀ r err,
     GetObjectNInfo objAPI reportBucket dataUsageObjName = inr r →
     Decode r = inl err →
     loadReport objAPI = (DataUsageInfo_zero, Some err)).
Proof.
  split; [|split].
  - intros err Hg Hnf. unfold loadDataUsageFromBackend. by rewrite Hg, Hnf.
  - intros err Hg Hnf.
    assert (Hl : loadReport objAPI =
                 (DataUsageInfo_zero,
                  toObjectErr (Some err) [reportBucket; dataUsageObjName])).
    { unfold loadDataUsageFromBackend. by rewrite Hg, Hnf. }
    split; [exact Hl|]. intros Hto.
    destruct (Hto err [reportBucket; dataUsageObjName]) as [e' He'].
    exists e'. by rewrite Hl, He'.
  - intros r err Hg Hd. unfold loadDataUsageFromBackend. by rewrite Hg, Hd.
Qed.

(** C3: after a successful load, a newer per-bucket map that was decoded
    empty holds one entry per bucket of the older map, with the size of the
    bucket and every other field zero; an older map that was decoded empty
    holds the [Size] field of every entry of the newer one; and in both
    cases the two maps of the result give the same size to every bucket. *)
Theorem loadDataUsage_fills_bucket_maps (objAPI : O) r d d' :
  GetObjectNInfo objAPI reportBucket dataUsageObjName = inr r →
  Decode r = inr d →
  loadReport objAPI = (d', None) →
  (len (BucketsUsage d) = 0%nat →
   BucketsUsage d' =
   Some (BucketUsageInfo_ofSize <$> default ∅ (BucketSizes d))) ∧
  (len (BucketSizes d) = 0%nat →
   BucketSizes d' = Some (Size <$> default ∅ (BucketsUsage d))) ∧
  (len (BucketsUsage d) = 0%nat ∨ len (BucketSizes d) = 0%nat →
   ∀ b, default ∅ (BucketSizes d') !! b =
        Size <$> (default ∅ (BucketsUsage d') !! b)).
Proof.
  intros Hg Hd Hl.
  destruct (loadReport_success objAPI r d d' Hg Hd Hl) as (ri & _ & ->).
  unfold withReplicationInfo. cbn [BucketsUsage BucketSizes].
  rewrite fillBucketSizes_usage, fillBucketSizes_sizes.
  rewrite fillBucketsUsage_usage, fillBucketsUsage_sizes.
  destruct (decide (len (BucketsUsage d) = 0%nat)) as [Hu|Hu];
    destruct (decide (len (BucketSizes d) = 0%nat)) as [Hs|Hs].
  - rewrite (len_zero_empty _ Hu), (len_zero_empty _ Hs). simpl.
    rewrite !fmap_empty.
    split; [done|]. split; [done|]. intros _ b. by rewrite lookup_empty.
  - split; [done|]. split; [done|]. intros _ b. simpl.
    rewrite lookup_fmap. by destruct (default ∅ (BucketSizes d) !! b).
  - split; [done|]. split; [done|]. intros _ b. simpl.
    by rewrite lookup_fmap.
  - split; [done|]. split; [done|]. by intros [?|?].
Qed.

(** C5: when a bucket of the decoded report has legacy counters that pass
    the test of the migration and its replication configuration cannot be
    looked up, the function returns the zero report together with the error
    of a failed lookup, whatever the order in which the buckets are
    visited. *)
Theorem loadDataUsage_fails_on_config_lookup (objAPI : O) r d bu b bui e :
  GetObjectNInfo objAPI reportBucket dataUsageObjName = inr r →
  Decode r = inr d →
  BucketsUsage d = Some bu →
  bu !! b = Some bui →
  hasReplicationV1 bui = true →
  getReplicationConfig b = inl e →
  ∃ b' e',
    getReplicationConfig b' = inl e' ∧
    loadReport objAPI = (DataUsageInfo_zero, Some e').
Proof.
  intros Hg Hd Hbu Hb Hq He.
  assert (Hne : len (BucketsUsage d) ≠ 0%nat).
  { rewrite Hbu. simpl. intros Hz%map_size_empty_iff.
    by rewrite Hz, lookup_empty in Hb. }
  assert (Hfill : BucketsUsage
                    (fillBucketSizes range (fillBucketsUsage range d))
                  = Some bu).
  { rewrite fillBucketSizes_usage, fillBucketsUsage_usage.
    by rewrite decide_False. }
  assert (Hin : (b, bui) ∈ range _ bu).
  { rewrite (range_ok _ bu). by apply elem_of_map_to_list. }
  destruct (migrate_fails
              (ReplicationInfo
                 (fillBucketSizes range (fillBucketsUsage range d)))
              _ b bui e Hin Hq He) as (b' & e' & Hb' & Hm).
  exists b', e'. split; [done|].
  unfold loadDataUsageFromBackend. rewrite Hg, Hd, Hfill. simpl.
  by rewrite Hm.
Qed.

End Load.

(** ** The sample backend meets the assumptions *)

Lemma sample_range_sound : range_sound Sample.range.
Proof. intros V g. reflexivity. Qed.

Lemma sample_rangeRev_sound : range_sound Sample.rangeRev.
Proof. intros V g. unfold Sample.rangeRev. apply reverse_Permutation. Qed.

Lemma sample_load_replaces :
  load_replaces (UsageCache0 := Sample.cacheOps).
Proof.
  intros c c' er name. simpl. unfold Sample.loadTree.
  destruct (er !! name) as [[|tree]|]; simpl; split; done.
Qed.

(** ** Instances on the sample backend *)

Lemma loadPrefixUsage_other_layer_witness :
  asErasureServerPools Sample.otherLayer = None ∧
  Sample.loadPrefixUsage Sample.otherLayer "bucket" = ((Some ∅, None), []).
Proof.
  split; [reflexivity|].
  apply (loadPrefixUsage_other_layer Sample.decodeDirObject Sample.range
           Sample.otherLayer "bucket").
  reflexivity.
Defined.

Lemma loadPrefixUsage_error_is_nil_witness :
  (Sample.loadPrefixUsage (Sample.erasureLayer Sample.poolsABC) "bucket").1.2
    = None ∧
  (Sample.loadPrefixUsage (Sample.erasureLayer Sample.poolsCorrupt)
     "bucket").1 = (Some ∅, None).
Proof.
  pose proof (loadPrefixUsage_error_is_nil (UsageCache0 := Sample.cacheOps)
                Sample.decodeDirObject Sample.range) as [Hnil Hall].
  split.
  - apply (Hnil (Sample.erasureLayer Sample.poolsABC) "bucket").
  - apply (Hall (Sample.erasureLayer Sample.poolsCorrupt)
             Sample.poolsCorrupt "bucket"); [reflexivity|].
    repeat constructor; left; by eexists.
Defined.

Lemma loadPrefixUsage_skips_failed_loads_witness :
  (let st := {| cache := dataUsageCache_zero (UsageCache := Sample.cacheOps);
                m := {["x" := 1]}; loads := [] |} in
   is_Some (load (cache st) Sample.setCorrupt Sample.snapshotName).2 ∧
   m (scanSet Sample.decodeDirObject Sample.range "bucket" st
        Sample.setCorrupt) = m st) ∧
  (∃ res : gmap string N,
     (Sample.loadPrefixUsage (Sample.erasureLayer Sample.poolsMixed)
        "bucket").1 = (Some res, None) ∧
     res !! "x" = Some 120) ∧
  (Sample.loadPrefixUsage (Sample.erasureLayer Sample.poolsMixed)
     "bucket").1 =
  (Sample.loadPrefixUsage
     (Sample.erasureLayer
        (countingSets (UsageCache0 := Sample.cacheOps) "bucket"
           Sample.poolsMixed))
     "bucket").1.
Proof.
  pose proof (loadPrefixUsage_skips_failed_loads
                (ObjectLayer0 := Sample.layerOps)
                (UsageCache0 := Sample.cacheOps)
                Sample.decodeDirObject Sample.range sample_range_sound)
    as (Hskip & Hsum & Hrest).
  split; [|split].
  - intros st.
    assert (Hfail : is_Some (load (cache st) Sample.setCorrupt
                               Sample.snapshotName).2) by (by eexists).
    split; [exact Hfail|].
    apply (Hskip "bucket" st Sample.setCorrupt Hfail).
  - destruct (Hsum (Sample.erasureLayer Sample.poolsMixed) Sample.poolsMixed
                "bucket" eq_refl) as (_ & res & Hr & Hl).
    exists res. split; [exact Hr|]. rewrite (Hl "x"). reflexivity.
  - apply (Hrest (Sample.erasureLayer Sample.poolsMixed) _ Sample.poolsMixed
             "bucket" sample_load_replaces); reflexivity.
Defined.

Lemma loadPrefixUsage_sums_over_sets_witness :
  (∃ res : gmap string N,
     (Sample.loadPrefixUsage (Sample.erasureLayer Sample.poolsMixed)
        "bucket").1 = (Some res, None) ∧
     res !! "x" = Some 120 ∧ res !! "z" = None) ∧
  (Sample.loadPrefixUsage (Sample.erasureLayer Sample.poolsABC) "bucket").1 =
  (Some {["x" := 120; "y" := 50]}, None).
Proof.
  pose proof (loadPrefixUsage_sums_over_sets
                (ObjectLayer0 := Sample.layerOps)
                (UsageCache0 := Sample.cacheOps)
                Sample.decodeDirObject Sample.range sample_range_sound)
    as (Hgen & Hex).
  split.
  - destruct (Hgen (Sample.erasureLayer Sample.poolsMixed) Sample.poolsMixed
                "bucket" eq_refl) as (res & Hr & Hl).
    exists res. split; [exact Hr|]. split.
    + destruct (Hl "x") as (_ & _ & Hx). rewrite Hx.
      * reflexivity.
      * apply (bool_decide_unpack _). vm_compute. exact I.
      * reflexivity.
    + destruct (Hl "z") as (Hz & _). apply Hz.
      apply (bool_decide_unpack _). vm_compute. exact I.
  - apply (Hex (Sample.erasureLayer Sample.poolsABC) Sample.poolsABC
             Sample.setA Sample.setB Sample.setC
             Sample.treeA Sample.treeB
             (Sample.entry 150 ["bucket/x"; "bucket/y"])
             (Sample.entry 20 ["bucket/x"])
             (Sample.entry 100 []) (Sample.entry 50 [])
             (Sample.entry 20 []));
      try reflexivity.
    intros c. right. reflexivity.
Defined.

Lemma store_one_attempt_per_report_witness :
  let dui := [Sample.reportSizesOnly; Sample.reportLegacy] in
  Forall (λ d, is_Some (putPayload Sample.Marshal (Sample.NewReader 8)
                          Sample.NewPutObjReader d)) dui ∧
  length (filter (λ c, isPutCall c = true)
            (calls (Sample.storeDataUsage 8 Sample.layerNoReport dui)))
  = 2%nat.
Proof.
  intros dui.
  assert (Hall : Forall (λ d, is_Some (putPayload Sample.Marshal
                                         (Sample.NewReader 8)
                                         Sample.NewPutObjReader d)) dui).
  { repeat constructor; by eexists. }
  split; [exact Hall|].
  pose proof (store_one_attempt_per_report Sample.minioMetaBucket
                Sample.bucketMetaPrefix Sample.isErrBucketNotFound
                Sample.Marshal (Sample.NewReader 8) Sample.NewPutObjReader
                Sample.layerNoReport dui) as Hrun.
  cbv zeta in Hrun. destruct Hrun as (_ & _ & _ & _ & Hn).
  exact (Hn Hall).
Defined.

Lemma store_failures_do_not_stop_the_loop_witness :
  calls (Sample.storeDataUsage 1 Sample.layerNoReport [DataUsageInfo_zero]) =
    [CallMarshal DataUsageInfo_zero;
     CallLogIf (Some (Sample.ErrOther "cannot serialize"))] ∧
  calls (Sample.storeDataUsage 1 Sample.layerNoReport
           [Sample.reportSizesOnly]) =
    [CallMarshal Sample.reportSizesOnly;
     CallNewReader [Byte.x2a; Byte.x2a] 2;
     CallLogIf (Some (Sample.ErrOther "too large"))] ∧
  calls (Sample.storeDataUsage 1 Sample.otherLayer
           [Sample.reportPendingSize]) =
    [CallMarshal Sample.reportPendingSize;
     CallNewReader [Byte.x2a] 1;
     CallPutObject ".minio.sys/buckets" ".usage.json" [Byte.x2a]] ∧
  calls (Sample.storeDataUsage 1 Sample.layerOffline
           [Sample.reportPendingSize]) =
    [CallMarshal Sample.reportPendingSize;
     CallNewReader [Byte.x2a] 1;
     CallPutObject ".minio.sys/buckets" ".usage.json" [Byte.x2a];
     CallLogIf (Some (Sample.ErrOther "offline"))].
Proof.
  pose proof (store_failures_do_not_stop_the_loop Sample.minioMetaBucket
                Sample.bucketMetaPrefix Sample.isErrBucketNotFound
                Sample.Marshal (Sample.NewReader 1) Sample.NewPutObjReader)
    as (Hmarshal & Hreader & Hput & _).
  split; [|split; [|split]].
  - apply (f_equal calls
             (Hmarshal {| backend := Sample.layerNoReport; calls := [] |}
                DataUsageInfo_zero (Sample.ErrOther "cannot serialize")
                eq_refl)).
  - apply (f_equal calls
             (Hreader {| backend := Sample.layerNoReport; calls := [] |}
                Sample.reportSizesOnly [Byte.x2a; Byte.x2a]
                (Sample.ErrOther "too large") eq_refl eq_refl)).
  - apply (f_equal calls
             (Hput {| backend := Sample.otherLayer; calls := [] |}
                Sample.reportPendingSize [Byte.x2a] [Byte.x2a]
                Sample.otherLayer Sample.ErrBucketNotFound
                eq_refl eq_refl eq_refl)).
  - apply (f_equal calls
             (Hput {| backend := Sample.layerOffline; calls := [] |}
                Sample.reportPendingSize [Byte.x2a] [Byte.x2a]
                Sample.layerOffline (Sample.ErrOther "offline")
                eq_refl eq_refl eq_refl)).
Defined.

Lemma loadDataUsage_absent_or_failed_witness :
  Sample.loadDataUsage Sample.range Sample.replicationTargets
    Sample.layerNoReport = (DataUsageInfo_zero, None) ∧
  Sample.loadDataUsage Sample.range Sample.replicationTargets
    Sample.otherLayer = (DataUsageInfo_zero, None) ∧
  (∃ e, Sample.loadDataUsage Sample.range Sample.replicationTargets
          Sample.layerOffline = (DataUsageInfo_zero, Some e)) ∧
  Sample.loadDataUsage Sample.range Sample.replicationTargets
    (Sample.layerWithReport [Byte.x09])
  = (DataUsageInfo_zero, Some Sample.ErrCorrupted).
Proof.
  split; [|split; [|split]].
  - apply (loadDataUsage_absent_or_failed Sample.minioMetaBucket
             Sample.bucketMetaPrefix Sample.isErrObjectNotFound
             Sample.isErrBucketNotFound Sample.toObjectErr
             (Sample.getReplicationConfig Sample.replicationTargets)
             (Sample.Decode Sample.codec) Sample.range Sample.layerNoReport)
      with (err := Sample.ErrObjectNotFound); reflexivity.
  - apply (loadDataUsage_absent_or_failed Sample.minioMetaBucket
             Sample.bucketMetaPrefix Sample.isErrObjectNotFound
             Sample.isErrBucketNotFound Sample.toObjectErr
             (Sample.getReplicationConfig Sample.replicationTargets)
             (Sample.Decode Sample.codec) Sample.range Sample.otherLayer)
      with (err := Sample.ErrBucketNotFound); reflexivity.
  - apply (loadDataUsage_absent_or_failed Sample.minioMetaBucket
             Sample.bucketMetaPrefix Sample.isErrObjectNotFound
             Sample.isErrBucketNotFound Sample.toObjectErr
             (Sample.getReplicationConfig Sample.replicationTargets)
             (Sample.Decode Sample.codec) Sample.range Sample.layerOffline)
      with (err := Sample.ErrOther "offline"); try reflexivity.
    intros e params. by eexists.
  - apply (loadDataUsage_absent_or_failed Sample.minioMetaBucket
             Sample.bucketMetaPrefix Sample.isErrObjectNotFound
             Sample.isErrBucketNotFound Sample.toObjectErr
             (Sample.getReplicationConfig Sample.replicationTargets)
             (Sample.Decode Sample.codec) Sample.range
             (Sample.layerWithReport [Byte.x09]))
      with (r := [Byte.x09]); reflexivity.
Defined.

Lemma loadDataUsage_fills_bucket_maps_witness :
  (let d' := (Sample.loadDataUsage Sample.range Sample.replicationTargets
                (Sample.layerWithReport [Byte.x01])).1 in
   BucketsUsage d' =
     Some {[ "a" := BucketUsageInfo_ofSize 10;
             "b" := BucketUsageInfo_ofSize 20 ]} ∧
   ∀ b, default ∅ (BucketSizes d') !! b =
        Size <$> (default ∅ (BucketsUsage d') !! b)) ∧
  (let d' := (Sample.loadDataUsage Sample.rangeRev Sample.replicationTargets
                (Sample.layerWithReport [Byte.x02])).1 in
   BucketSizes d' = Some {[ "a" := 10; "b" := 20 ]}).
Proof.
  split.
  - intros d'.
    destruct (loadDataUsage_fills_bucket_maps
                (ObjectLayer0 := Sample.layerOps) Sample.minioMetaBucket
                Sample.bucketMetaPrefix Sample.isErrObjectNotFound
                Sample.isErrBucketNotFound Sample.toObjectErr
                (Sample.getReplicationConfig Sample.replicationTargets)
                (Sample.Decode Sample.codec) Sample.range sample_range_sound
                (Sample.layerWithReport [Byte.x01]) [Byte.x01]
                Sample.reportSizesOnly d'
                ltac:(reflexivity) ltac:(reflexivity) ltac:(reflexivity))
      as (Husage & _ & Hagree).
    split.
    + rewrite (Husage eq_refl). reflexivity.
    + apply Hagree. left. reflexivity.
  - intros d'.
    destruct (loadDataUsage_fills_bucket_maps
                (ObjectLayer0 := Sample.layerOps) Sample.minioMetaBucket
                Sample.bucketMetaPrefix Sample.isErrObjectNotFound
                Sample.isErrBucketNotFound Sample.toObjectErr
                (Sample.getReplicationConfig Sample.replicationTargets)
                (Sample.Decode Sample.codec) Sample.rangeRev
                sample_rangeRev_sound
                (Sample.layerWithReport [Byte.x02]) [Byte.x02]
                Sample.reportUsageOnly d'
                ltac:(reflexivity) ltac:(reflexivity) ltac:(reflexivity))
      as (_ & Hsizes & _).
    rewrite (Hsizes eq_refl). reflexivity.
Defined.

Lemma loadDataUsage_fails_on_config_lookup_witness :
  ∃ b' e',
    Sample.getReplicationConfig {[ "a" := "arn:target-a" ]} b' = inl e' ∧
    Sample.loadDataUsage Sample.rangeRev {[ "a" := "arn:target-a" ]}
      (Sample.layerWithReport [Byte.x03]) = (DataUsageInfo_zero, Some e').
Proof.
  apply (loadDataUsage_fails_on_config_lookup
           (ObjectLayer0 := Sample.layerOps) Sample.minioMetaBucket
           Sample.bucketMetaPrefix Sample.isErrObjectNotFound
           Sample.isErrBucketNotFound Sample.toObjectErr
           (Sample.getReplicationConfig {[ "a" := "arn:target-a" ]})
           (Sample.Decode Sample.codec) Sample.rangeRev sample_rangeRev_sound
           (Sample.layerWithReport [Byte.x03]) [Byte.x03] Sample.reportLegacy
           {[ "a" := Sample.usage 10 1 0; "b" := Sample.usage 20 2 0 ]}
           "b" (Sample.usage 20 2 0)
           (Sample.ErrOther "replication configuration not found"));
    reflexivity.
Defined.

(** ** The migration of the legacy replication counters *)

(** C2: evaluation of the function on a report in which two buckets, [a] and
    [b], have non-zero legacy counters and each has a replication target of
    its own.  The load succeeds and [ReplicationInfo] holds a single entry:
    the one of the bucket visited last, [b] in one order and [a] in the
    other; the entry of the other bucket is lost, because the map is
    allocated again for every bucket that passes the test.  The legacy
    fields of both buckets are as decoded.  A bucket whose only non-zero
    legacy counter is the pending size does not pass the test and gets no
    entry. *)
Theorem legacy_counters_of_two_buckets :
  let first := Sample.loadDataUsage Sample.range Sample.replicationTargets
                 (Sample.layerWithReport [Byte.x03]) in
  let second := Sample.loadDataUsage Sample.rangeRev Sample.replicationTargets
                  (Sample.layerWithReport [Byte.x03]) in
  let pending := Sample.loadDataUsage Sample.range Sample.replicationTargets
                   (Sample.layerWithReport [Byte.x04]) in
  first.2 = None ∧
  ReplicationInfo first.1 =
    Some {[ "arn:target-b" := targetOfV1 (Sample.usage 20 2 0) ]} ∧
  BucketsUsage first.1 = BucketsUsage Sample.reportLegacy ∧
  second.2 = None ∧
  ReplicationInfo second.1 =
    Some {[ "arn:target-a" := targetOfV1 (Sample.usage 10 1 0) ]} ∧
  BucketsUsage second.1 = BucketsUsage Sample.reportLegacy ∧
  pending.2 = None ∧
  ReplicationInfo pending.1 = None.
Proof.
  repeat split; vm_compute; reflexivity.
Qed.

(** ** The sum beyond [2^64] *)

(** C1, as stated, on three sets that each report the size [2^63 - 1] for
    bucket/x: the sizes add up to [3 * (2^63 - 1)], which no [uint64] holds,
    and the function returns [2^63 - 3] for the key, the sum modulo
    [2^64]. *)
Lemma loadPrefixUsage_sum_wraps :
  let r := Sample.loadPrefixUsage (Sample.erasureLayer Sample.poolsHuge)
             "bucket" in
  let total :=
    sumN (setTotal Sample.decodeDirObject "bucket" "x" <$>
            filter (λ r, contributes "bucket" r = true)
              (loadOutcomes "bucket"
                 (dataUsageCache_zero (UsageCache := Sample.cacheOps))
                 (allSets Sample.poolsHuge))) in
  total = 27670116110564327421 ∧
  r.1 = (Some {[ "x" := 9223372036854775805 ]}, None) ∧
  ¬ (∃ res : gmap string N, r.1 = (Some res, None) ∧ res !! "x" = Some total).
Proof.
  intros r total.
  assert (Ht : total = 27670116110564327421) by (vm_compute; reflexivity).
  assert (Hr : r.1 = (Some {[ "x" := 9223372036854775805 ]}, None))
    by (vm_compute; reflexivity).
  split; [exact Ht|]. split; [exact Hr|].
  intros (res & Hres & Hx). rewrite Hr in Hres.
  injection Hres as <-. rewrite Ht in Hx.
  rewrite lookup_singleton_eq in Hx. discriminate Hx.
Qed.

(** ** Further properties of loadPrefixUsageFromBackend *)

Lemma concat_perm {A : Type} (l1 l2 : list (list A)) :
  l1 ≡ₚ l2 → concat l1 ≡ₚ concat l2.
Proof.
  induction 1 as [|x l l' _ IH|x y l|l l' l'' _ IH1 _ IH2]; simpl.
  - done.
  - by rewrite IH.
  - rewrite !app_assoc. by rewrite (Permutation_app_comm y x).
  - by rewrite IH1.
Qed.

Lemma HasPrefix_app (prefix s : string) : HasPrefix (prefix +:+ s) prefix = true.
Proof.
  induction prefix as [|a prefix IH]; simpl.
  - by destruct s.
  - by rewrite Ascii.eqb_refl.
Qed.

Lemma string_drop_app (prefix s : string) :
  string_drop (String.length prefix) (prefix +:+ s) = s.
Proof. induction prefix as [|a prefix IH]; [done|]. cbn. exact IH. Qed.

Lemma string_app_assoc (s1 s2 s3 : string) :
  (s1 +:+ s2) +:+ s3 = s1 +:+ s2 +:+ s3.
Proof.
  induction s1 as [|a s1 IH]; [done|].
  change (String a ((s1 +:+ s2) +:+ s3) = String a (s1 +:+ s2 +:+ s3)).
  by rewrite IH.
Qed.

Lemma TrimPrefix_app (prefix s : string) : TrimPrefix (prefix +:+ s) prefix = s.
Proof. unfold TrimPrefix. by rewrite HasPrefix_app, string_drop_app. Qed.

Section PrefixUsageMore.
Context {error Reader PutObjReader erasureObjects O : Type}.
Context `{!ObjectLayer (error := error) (Reader := Reader)
            (PutObjReader := PutObjReader)
            (erasureObjects := erasureObjects) O}.
Context {dataUsageCache : Type}.
Context `{!UsageCache (error := error) (erasureObjects := erasureObjects)
            dataUsageCache}.
Variable decodeDirObject : string → string.

Implicit Types (bucket p : string) (range : rangeOrder).
Implicit Types (st : prefixScan (erasureObjects := erasureObjects)
                       (dataUsageCache := dataUsageCache)).

(** The map and the loads of a scan do not depend on the order in which the
    flattened entries are visited. *)
Lemma foldl_scanSet_order range1 range2 bucket ers st :
  range_sound range1 → range_sound range2 →
  m (foldl (scanSet decodeDirObject range1 bucket) st ers) =
  m (foldl (scanSet decodeDirObject range2 bucket) st ers) ∧
  loads (foldl (scanSet decodeDirObject range1 bucket) st ers) =
  loads (foldl (scanSet decodeDirObject range2 bucket) st ers).
Proof.
  intros H1 H2. split.
  - apply map_eq. intros p.
    by rewrite (foldl_scanSet_lookup decodeDirObject range1 H1),
               (foldl_scanSet_lookup decodeDirObject range2 H2).
  - by rewrite !foldl_scanSet_loads.
Qed.

(** The result of the function, map, error and loads, is the same for any
    two orders in which [range] may visit the flattened entries. *)
Theorem loadPrefixUsage_range_order_irrelevant range1 range2
    (objAPI : O) bucket :
  range_sound range1 → range_sound range2 →
  loadPrefixUsageFromBackend decodeDirObject range1 objAPI bucket =
  loadPrefixUsageFromBackend decodeDirObject range2 objAPI bucket.
Proof.
  intros H1 H2. unfold loadPrefixUsageFromBackend.
  destruct (asErasureServerPools objAPI) as [z|]; [|done]. simpl.
  rewrite !scanPools_allSets.
  destruct (foldl_scanSet_order range1 range2 bucket
              (concat (sets <$> serverPools z))
              {| cache := dataUsageCache_zero; m := ∅; loads := [] |} H1 H2)
    as [-> ->].
  done.
Qed.

(** How the sets are grouped into pools does not matter: two layers whose
    pools list the same sets in the same order give the same result. *)
Theorem loadPrefixUsage_pool_grouping_irrelevant range
    (objAPI objAPI' : O) z z' bucket :
  asErasureServerPools objAPI = Some z →
  asErasureServerPools objAPI' = Some z' →
  allSets z = allSets z' →
  loadPrefixUsageFromBackend decodeDirObject range objAPI bucket =
  loadPrefixUsageFromBackend decodeDirObject range objAPI' bucket.
Proof.
  intros Hz Hz' Heq. unfold loadPrefixUsageFromBackend.
  rewrite Hz, Hz'. simpl. rewrite !scanPools_allSets.
  unfold allSets in Heq. by rewrite Heq.
Qed.


(** A key recorded in the map is still there after any further set has been
    scanned. *)
Theorem scan_keeps_keys range bucket ers st p :
  range_sound range →
  is_Some (m st !! p) →
  is_Some (m (foldl (scanSet decodeDirObject range bucket) st ers) !! p).
Proof.
  intros Hr Hin.
  rewrite (foldl_scanSet_lookup decodeDirObject range Hr). simpl.
  unfold added. by case_decide.
Qed.

(** The key of an identifier: one leading "bucket/" is removed and the rest
    decoded; an identifier that does not start with "bucket/" is decoded
    whole. *)
Theorem prefixOf_strips_bucket bucket :
  (∀ rest,
     prefixOf decodeDirObject bucket (bucket +:+ slashSeparator +:+ rest) =
     decodeDirObject rest) ∧
  (∀ id,
     HasPrefix id (bucket +:+ slashSeparator) = false →
     prefixOf decodeDirObject bucket id = decodeDirObject id).
Proof.
  split.
  - intros rest. unfold prefixOf.
    by rewrite <- string_app_assoc, TrimPrefix_app.
  - intros id Hno. unfold prefixOf, TrimPrefix. by rewrite Hno.
Qed.

End PrefixUsageMore.

Section PrefixUsageSets.
Context {error Reader PutObjReader erasureObjects O : Type}.
Context `{!ObjectLayer (error := error) (Reader := Reader)
            (PutObjReader := PutObjReader)
            (erasureObjects := erasureObjects) O}.
Context {dataUsageCache : Type}.
Context `{!UsageCache (error := error) (erasureObjects := erasureObjects)
            dataUsageCache}.
Variable decodeDirObject : string → string.
Variable range : rangeOrder.
Hypothesis range_ok : range_sound range.
Hypothesis load_ok : load_replaces.

Implicit Types (bucket p : string).

Lemma setTotal_fmap bucket p (rs : list (dataUsageCache * option error)) :
  setTotal decodeDirObject bucket p <$> rs =
  prefixTotal p <$> (setEntries decodeDirObject bucket <$> rs).
Proof.
  induction rs as [|r rs IH]; [done|]. rewrite !fmap_cons. by rewrite IH.
Qed.

(** When loads replace the cache, what a set adds is what its snapshot holds,
    whatever was loaded before it. *)
Lemma loadOutcomes_entries bucket ers (c : dataUsageCache) :
  setEntries decodeDirObject bucket <$> loadOutcomes bucket c ers =
  (λ er, setEntries decodeDirObject bucket
           (load dataUsageCache_zero er
              (bucket +:+ slashSeparator +:+ dataUsageCacheName))) <$> ers.
Proof.
  revert c. induction ers as [|er ers IH]; intros c; [done|].
  cbn [loadOutcomes]. rewrite !fmap_cons. f_equal; [|apply IH].
  destruct (load_ok c dataUsageCache_zero er
              (bucket +:+ slashSeparator +:+ dataUsageCacheName)) as [He Hc].
  unfold setEntries. rewrite <- He.
  destruct (load c er _).2; [done|]. by rewrite Hc.
Qed.

Lemma expectedUsage_entries_perm bucket p
    (rs1 rs2 : list (dataUsageCache * option error)) :
  setEntries decodeDirObject bucket <$> rs1 ≡ₚ
  setEntries decodeDirObject bucket <$> rs2 →
  expectedUsage decodeDirObject bucket rs1 p =
  expectedUsage decodeDirObject bucket rs2 p.
Proof.
  intros Hp. unfold expectedUsage, reportedKeys.
  assert (Hk : (concat (setEntries decodeDirObject bucket <$> rs1)).*1 ≡ₚ
               (concat (setEntries decodeDirObject bucket <$> rs2)).*1).
  { by rewrite (concat_perm _ _ Hp). }
  assert (Hs : sumN (setTotal decodeDirObject bucket p <$> rs1) =
               sumN (setTotal decodeDirObject bucket p <$> rs2)).
  { rewrite !setTotal_fmap. apply sumN_perm. by rewrite Hp. }
  rewrite Hs.
  destruct (decide (p ∈ (concat (setEntries decodeDirObject bucket <$> rs1)).*1))
    as [H1|H1];
    destruct (decide (p ∈ (concat (setEntries decodeDirObject bucket <$> rs2)).*1))
    as [H2|H2]; try done.
  - by rewrite Hk in H1.
  - by rewrite <- Hk in H2.
Qed.

(** When loads replace the cache, the order in which the sets are visited
    does not matter: two layers with the same sets in any order give the
    same map and error. *)
Theorem loadPrefixUsage_set_order_irrelevant (objAPI objAPI' : O) z z' bucket :
  asErasureServerPools objAPI = Some z →
  asErasureServerPools objAPI' = Some z' →
  allSets z ≡ₚ allSets z' →
  (loadPrefixUsageFromBackend decodeDirObject range objAPI bucket).1 =
  (loadPrefixUsageFromBackend decodeDirObject range objAPI' bucket).1.
Proof.
  intros Hz Hz' Hp.
  destruct (loadPrefixUsage_lookup decodeDirObject range range_ok objAPI z
              bucket Hz) as (res & Hr & Hl).
  destruct (loadPrefixUsage_lookup decodeDirObject range range_ok objAPI' z'
              bucket Hz') as (res' & Hr' & Hl').
  rewrite Hr, Hr'. do 2 f_equal. apply map_eq. intros p.
  rewrite Hl, Hl'. apply expectedUsage_entries_perm.
  rewrite !loadOutcomes_entries. by rewrite Hp.
Qed.

End PrefixUsageSets.

(** ** Further properties of storeDataUsageInBackend *)

Section StoreMore.
Context {error Reader hashReader PutObjReader erasureObjects O : Type}.
Context `{!ObjectLayer (error := error) (Reader := Reader)
            (PutObjReader := PutObjReader)
            (erasureObjects := erasureObjects) O}.
Variable minioMetaBucket bucketMetaPrefix : string.
Variable isErrBucketNotFound : option error → bool.
Variable Marshal : DataUsageInfo → error + list Byte.byte.
Variable NewReader :
  list Byte.byte → Z → string → string → Z → error + hashReader.
Variable NewPutObjReader : hashReader → PutObjReader.

#[local] Abbreviation bucketName :=
  (dataUsageBucket minioMetaBucket bucketMetaPrefix).
#[local] Abbreviation step :=
  (storeOne minioMetaBucket bucketMetaPrefix isErrBucketNotFound Marshal
     NewReader NewPutObjReader).
#[local] Abbreviation run :=
  (storeDataUsageInBackend minioMetaBucket bucketMetaPrefix
     isErrBucketNotFound Marshal NewReader NewPutObjReader).
#[local] Abbreviation block :=
  (attemptCalls minioMetaBucket bucketMetaPrefix isErrBucketNotFound Marshal
     NewReader NewPutObjReader).
#[local] Abbreviation after :=
  (backendAfter minioMetaBucket bucketMetaPrefix isErrBucketNotFound Marshal
     NewReader NewPutObjReader).
#[local] Abbreviation blocks :=
  (attempts minioMetaBucket bucketMetaPrefix isErrBucketNotFound Marshal
     NewReader NewPutObjReader).
#[local] Abbreviation payload := (putPayload Marshal NewReader NewPutObjReader).

Implicit Types
  (st : storeRun (error := error) (PutObjReader := PutObjReader) (O := O))
  (d : DataUsageInfo).

(** The backend an iteration leaves: the one [PutObject] returns when the
    report reaches it, the one it found otherwise. *)
Lemma backendAfter_payload (o : O) d :
  after o d =
  match payload d with
  | Some por => (PutObject o bucketName dataUsageObjName por).1
  | None => o
  end.
Proof.
  unfold backendAfter, putPayload, storeOne, record. simpl.
  destruct (Marshal d) as [e|js]; simpl; [done|].
  destruct (NewReader js _ _ _ _) as [e|r]; simpl; [done|].
  destruct (PutObject o _ _ _) as [o' err]; simpl.
  by destruct (negb (isErrBucketNotFound err)).
Qed.

Lemma foldl_storeOne_backend st dui :
  backend (foldl step st dui) = foldl after (backend st) dui.
Proof.
  revert st. induction dui as [|d dui IH]; intros st; simpl; [done|].
  rewrite IH. by rewrite (storeOne_calls _ _ _ _ _ _ st d).
Qed.

(** A run over two batches is the run over the first followed by the run
    over the second on the backend the first one left. *)
Theorem store_runs_compose (objAPI : O) (l1 l2 : list DataUsageInfo) :
  run objAPI (l1 ++ l2) =
  {| backend := backend (run (backend (run objAPI l1)) l2);
     calls := calls (run objAPI l1) ++
              calls (run (backend (run objAPI l1)) l2) |}.
Proof.
  unfold storeDataUsageInBackend. rewrite foldl_app.
  rewrite (foldl_storeOne _ _ _ _ _ _ (foldl step _ l1) l2).
  rewrite (foldl_storeOne _ _ _ _ _ _
             {| backend := backend (foldl step _ l1); calls := [] |} l2).
  simpl. by rewrite !foldl_storeOne_backend.
Qed.

(** The backend a run leaves is the one obtained by handing to [PutObject],
    in order, the reports that serialize; when none does, [PutObject] is not
    called and the backend is the one the run started with. *)
Theorem store_backend_follows_puts (objAPI : O) (dui : list DataUsageInfo) :
  backend (run objAPI dui) =
  foldl (λ o d,
           match payload d with
           | Some por => (PutObject o bucketName dataUsageObjName por).1
           | None => o
           end) objAPI dui ∧
  (Forall (λ d, payload d = None) dui →
   backend (run objAPI dui) = objAPI ∧
   filter (λ c, isPutCall c = true) (calls (run objAPI dui)) = []).
Proof.
  assert (Hb : backend (run objAPI dui) =
               foldl (λ o d,
                        match payload d with
                        | Some por =>
                            (PutObject o bucketName dataUsageObjName por).1
                        | None => o
                        end) objAPI dui).
  { unfold storeDataUsageInBackend. rewrite foldl_storeOne_backend. simpl.
    generalize objAPI. induction dui as [|d dui' IH]; intros o; simpl; [done|].
    by rewrite backendAfter_payload, IH. }
  split; [exact Hb|]. intros Hnone. split.
  - rewrite Hb. clear Hb. generalize objAPI.
    induction Hnone as [|d dui' Hd _ IH]; intros o; simpl; [done|].
    by rewrite Hd, IH.
  - rewrite (run_calls _ _ _ _ _ _ objAPI dui), put_calls_of_blocks.
    clear Hb. induction Hnone as [|d dui' Hd _ IH]; [done|].
    simpl. rewrite Hd. simpl. exact IH.
Qed.




End StoreMore.

(** ** Further properties of loadDataUsageFromBackend *)

Section LoadMore.
Context {error Reader PutObjReader erasureObjects O : Type}.
Context `{!ObjectLayer (error := error) (Reader := Reader)
            (PutObjReader := PutObjReader)
            (erasureObjects := erasureObjects) O}.
Variable minioMetaBucket bucketMetaPrefix : string.
Variable isErrObjectNotFound isErrBucketNotFound : option error → bool.
Variable toObjectErr : option error → list string → option error.
Variable getReplicationConfig : string → error + replicationConfig.
Variable Decode : Reader → error + DataUsageInfo.
Variable range : rangeOrder.
Hypothesis range_ok : range_sound range.

#[local] Abbreviation reportBucket :=
  (dataUsageBucket minioMetaBucket bucketMetaPrefix).
#[local] Abbreviation loadReport :=
  (loadDataUsageFromBackend minioMetaBucket bucketMetaPrefix
     isErrObjectNotFound isErrBucketNotFound toObjectErr
     getReplicationConfig Decode range).
#[local] Abbreviation migrate := (migrateReplicationV1 getReplicationConfig).
#[local] Abbreviation filled d :=
  (fillBucketSizes range (fillBucketsUsage range d)).

Implicit Types (d : DataUsageInfo) (bui : BucketUsageInfo) (b : string).

Lemma hasReplicationV1_ofSize (size : N) :
  hasReplicationV1 (BucketUsageInfo_ofSize size) = false.
Proof. reflexivity. Qed.

(** The function once the object is read and decoded. *)
Lemma loadReport_decoded (objAPI : O) r d :
  GetObjectNInfo objAPI reportBucket dataUsageObjName = inr r →
  Decode r = inr d →
  loadReport objAPI =
  match migrate (ReplicationInfo d) (rangeOf range (BucketsUsage (filled d)))
  with
  | inl err => (DataUsageInfo_zero, Some err)
  | inr ri => (withReplicationInfo (filled d) ri, None)
  end.
Proof.
  intros Hg Hd. unfold loadDataUsageFromBackend. rewrite Hg, Hd.
  assert (Hri : ReplicationInfo (filled d) = ReplicationInfo d).
  { unfold fillBucketSizes, fillBucketsUsage.
    repeat case_decide; reflexivity. }
  by rewrite Hri.
Qed.

(** The entries the last loop visits that pass its test are the entries of
    the decoded [BucketsUsage] that pass it: an entry rebuilt from
    [BucketSizes] never does. *)
Lemma filled_usage_qualifying d b bui :
  (b, bui) ∈ rangeOf range (BucketsUsage (filled d)) ∧
  hasReplicationV1 bui = true ↔
  default ∅ (BucketsUsage d) !! b = Some bui ∧ hasReplicationV1 bui = true.
Proof.
  rewrite (fillBucketSizes_usage range),
          (fillBucketsUsage_usage range range_ok).
  destruct (decide (len (BucketsUsage d) = 0%nat)) as [Hz|Hnz].
  - cbn [rangeOf]. rewrite (range_ok _ _), elem_of_map_to_list, lookup_fmap.
    rewrite (len_zero_empty _ Hz), lookup_empty. split.
    + intros [Hl Hq]. destruct (default ∅ (BucketSizes d) !! b); [|done].
      simpl in Hl. injection Hl as <-. done.
    + by intros [? ?].
  - destruct (BucketsUsage d) as [g|]; [|done]. cbn [rangeOf default].
    by rewrite (range_ok _ _), elem_of_map_to_list.
Qed.

(** The last loop returns without error exactly when every entry that passes
    the test has a replication configuration. *)
Lemma migrate_ok_iff ri (l : list (string * BucketUsageInfo)) :
  (∃ ri', migrate ri l = inr ri') ↔
  ∀ b bui, (b, bui) ∈ l → hasReplicationV1 bui = true →
           ∃ cfg, getReplicationConfig b = inr cfg.
Proof.
  revert ri. induction l as [|[b0 bui0] l IH]; intros ri; simpl.
  { split; [|by eexists]. intros _ b bui Hin. by apply elem_of_nil in Hin. }
  destruct (hasReplicationV1 bui0) eqn:Hq.
  - destruct (getReplicationConfig b0) as [e0|cfg] eqn:Hc.
    + split; [by intros [? ?]|]. intros Hall.
      destruct (Hall b0 bui0) as [cfg Hcfg]; [by left|done|congruence].
    + rewrite IH. split.
      * intros Hall b bui [[= -> ->]|Hin]%elem_of_cons Hb; [by eexists|].
        by eapply Hall.
      * intros Hall b bui Hin. apply Hall. by right.
  - rewrite IH. split.
    + intros Hall b bui [[= -> ->]|Hin]%elem_of_cons Hb; [congruence|].
      by eapply Hall.
    + intros Hall b bui Hin. apply Hall. by right.
Qed.

Lemma migrate_none ri (l : list (string * BucketUsageInfo)) :
  (∀ b bui, (b, bui) ∈ l → hasReplicationV1 bui = false) →
  migrate ri l = inr ri.
Proof.
  induction l as [|[b0 bui0] l IH]; intros Hall; simpl; [done|].
  rewrite (Hall b0 bui0) by by left.
  apply IH. intros b bui Hin. apply (Hall b bui). by right.
Qed.

(** Whenever the function returns an error, the report it returns is the
    zero report: no partly filled or partly migrated report comes with an
    error. *)
Theorem loadDataUsage_error_means_zero_report (objAPI : O) :
  is_Some (loadReport objAPI).2 →
  (loadReport objAPI).1 = DataUsageInfo_zero.
Proof.
  unfold loadDataUsageFromBackend.
  destruct (GetObjectNInfo objAPI _ _) as [err|r].
  { by destruct (_ || _). }
  destruct (Decode r) as [err|d]; [done|].
  destruct (migrateReplicationV1 _ _ _) as [err|ri]; [done|].
  simpl. by intros [? ?].
Qed.

(** Once the report is read and decoded, the load succeeds exactly when
    every bucket of the decoded [BucketsUsage] whose legacy counters pass
    the test has a replication configuration; the order of the visit plays
    no part. *)
Theorem loadDataUsage_succeeds_iff (objAPI : O) r d :
  GetObjectNInfo objAPI reportBucket dataUsageObjName = inr r →
  Decode r = inr d →
  (loadReport objAPI).2 = None ↔
  ∀ b bui, default ∅ (BucketsUsage d) !! b = Some bui →
           hasReplicationV1 bui = true →
           ∃ cfg, getReplicationConfig b = inr cfg.
Proof.
  intros Hg Hd. rewrite (loadReport_decoded objAPI r d Hg Hd).
  pose proof (migrate_ok_iff (ReplicationInfo d)
                (rangeOf range (BucketsUsage (filled d)))) as Hiff.
  split.
  - intros Hok b bui Hb Hq.
    destruct (migrate _ _) as [err|ri] eqn:Hm; [done|].
    apply (proj1 Hiff (ex_intro _ ri eq_refl) b bui); [|done].
    by apply (filled_usage_qualifying d b bui).
  - intros Hall.
    destruct (proj2 Hiff) as [ri Hri].
    + intros b bui Hin Hq. apply (Hall b bui); [|done].
      by apply (filled_usage_qualifying d b bui).
    + by rewrite Hri.
Qed.

(** A successful load returns the counters of the decoded report, and a
    per-bucket map that was decoded non-empty, as they were; in particular
    two non-empty maps that disagree are both kept. *)
Theorem loadDataUsage_keeps_decoded_fields (objAPI : O) r d d' :
  GetObjectNInfo objAPI reportBucket dataUsageObjName = inr r →
  Decode r = inr d →
  loadReport objAPI = (d', None) →
  ObjectsTotalCount d' = ObjectsTotalCount d ∧
  ObjectsTotalSize d' = ObjectsTotalSize d ∧
  BucketsCount d' = BucketsCount d ∧
  (len (BucketsUsage d) ≠ 0%nat → BucketsUsage d' = BucketsUsage d) ∧
  (len (BucketSizes d) ≠ 0%nat → BucketSizes d' = BucketSizes d).
Proof.
  intros Hg Hd. rewrite (loadReport_decoded objAPI r d Hg Hd).
  destruct (migrate _ _) as [err|ri]; [done|]. intros [= <-].
  unfold withReplicationInfo, fillBucketSizes, fillBucketsUsage.
  repeat case_decide; simpl; repeat split; try done.
Qed.

(** When no bucket of the decoded [BucketsUsage] passes the test, and so
    whenever that map was decoded empty, the load succeeds whatever the
    replication configurations are, and [ReplicationInfo] is as decoded. *)
Theorem loadDataUsage_without_legacy_counters (objAPI : O) r d :
  GetObjectNInfo objAPI reportBucket dataUsageObjName = inr r →
  Decode r = inr d →
  ((∀ b bui, default ∅ (BucketsUsage d) !! b = Some bui →
             hasReplicationV1 bui = false) →
   ∃ d', loadReport objAPI = (d', None) ∧
         ReplicationInfo d' = ReplicationInfo d) ∧
  (len (BucketsUsage d) = 0%nat →
   ∃ d', loadReport objAPI = (d', None) ∧
         ReplicationInfo d' = ReplicationInfo d).
Proof.
  intros Hg Hd.
  assert (Hmain : (∀ b bui, default ∅ (BucketsUsage d) !! b = Some bui →
                            hasReplicationV1 bui = false) →
                  ∃ d', loadReport objAPI = (d', None) ∧
                        ReplicationInfo d' = ReplicationInfo d).
  { intros Hnone. rewrite (loadReport_decoded objAPI r d Hg Hd).
    rewrite migrate_none.
    - eexists. split; [reflexivity|]. reflexivity.
    - intros b bui Hin.
      destruct (hasReplicationV1 bui) eqn:Hq; [|done].
      destruct (proj1 (filled_usage_qualifying d b bui) (conj Hin Hq))
        as [Hb _].
      by rewrite (Hnone b bui Hb) in Hq. }
  split; [exact Hmain|].
  intros Hz. apply Hmain. intros b bui.
  by rewrite (len_zero_empty _ Hz), lookup_empty.
Qed.

(** A successful load of a report in which some bucket passes the test
    leaves a [ReplicationInfo] with one entry only, built from the legacy
    counters of one bucket that passes the test and keyed by its target. *)
Lemma loadReport_migrated (objAPI : O) r d d' b bui :
  GetObjectNInfo objAPI reportBucket dataUsageObjName = inr r →
  Decode r = inr d →
  loadReport objAPI = (d', None) →
  default ∅ (BucketsUsage d) !! b = Some bui →
  hasReplicationV1 bui = true →
  ∃ b' bui' cfg,
    default ∅ (BucketsUsage d) !! b' = Some bui' ∧
    hasReplicationV1 bui' = true ∧
    getReplicationConfig b' = inr cfg ∧
    ReplicationInfo d' = Some {[RoleArn cfg := targetOfV1 bui']}.
Proof.
  intros Hg Hd Hl Hb Hq. rewrite (loadReport_decoded objAPI r d Hg Hd) in Hl.
  destruct (migrate _ _) as [err|ri] eqn:Hm; [done|]. injection Hl as <-.
  apply (migrate_last_only getReplicationConfig) in Hm.
  destruct (proj2 (filled_usage_qualifying d b bui) (conj Hb Hq)) as [Hin _].
  assert (Hf : (b, bui) ∈ filter (λ kv : string * BucketUsageInfo,
                                    hasReplicationV1 kv.2 = true)
                 (rangeOf range (BucketsUsage (filled d)))).
  { by apply list_elem_of_filter. }
  destruct (last _) as [[b' bui']|] eqn:Hlast.
  - destruct Hm as (cfg & Hcfg & ->).
    apply last_Some_elem_of, list_elem_of_filter in Hlast as [Hq' Hin'].
    simpl in Hq'.
    destruct (proj1 (filled_usage_qualifying d b' bui') (conj Hin' Hq'))
      as [Hb' _].
    by exists b', bui', cfg.
  - apply last_None in Hlast. rewrite Hlast in Hf. by apply elem_of_nil in Hf.
Qed.

(** Whatever [ReplicationInfo] was decoded, and however many buckets pass
    the test, a successful load of a report in which some bucket passes it
    leaves a [ReplicationInfo] with a single entry: the target and the legacy
    counters of one bucket that passes the test. *)
Theorem loadDataUsage_migrates_one_bucket (objAPI : O) r d d' b bui :
  GetObjectNInfo objAPI reportBucket dataUsageObjName = inr r →
  Decode r = inr d →
  loadReport objAPI = (d', None) →
  default ∅ (BucketsUsage d) !! b = Some bui →
  hasReplicationV1 bui = true →
  ∃ b' bui' cfg,
    default ∅ (BucketsUsage d) !! b' = Some bui' ∧
    hasReplicationV1 bui' = true ∧
    getReplicationConfig b' = inr cfg ∧
    ReplicationInfo d' = Some {[RoleArn cfg := targetOfV1 bui']}.
Proof. apply loadReport_migrated. Qed.

(** When exactly one bucket passes the test and its replication
    configuration is found, the load succeeds and [ReplicationInfo] is the
    single entry keyed by the [RoleArn] of that configuration and carrying
    the five legacy counters of the bucket; the per-bucket map is as
    decoded. *)
Theorem loadDataUsage_migrates_single_bucket (objAPI : O) r d b bui cfg :
  GetObjectNInfo objAPI reportBucket dataUsageObjName = inr r →
  Decode r = inr d →
  default ∅ (BucketsUsage d) !! b = Some bui →
  hasReplicationV1 bui = true →
  (∀ b' bui', default ∅ (BucketsUsage d) !! b' = Some bui' →
              hasReplicationV1 bui' = true → b' = b) →
  getReplicationConfig b = inr cfg →
  ∃ d', loadReport objAPI = (d', None) ∧
        ReplicationInfo d' =
          Some {[RoleArn cfg :=
                   {| ReplicationPendingSize := ReplicationPendingSizeV1 bui;
                      ReplicationFailedSize := ReplicationFailedSizeV1 bui;
                      ReplicatedSize := ReplicatedSizeV1 bui;
                      ReplicationPendingCount := ReplicationPendingCountV1 bui;
                      ReplicationFailedCount := ReplicationFailedCountV1 bui
                   |}]} ∧
        BucketsUsage d' = BucketsUsage d.
Proof.
  intros Hg Hd Hb Hq Huniq Hcfg.
  assert (Hok : ∃ ri', migrate (ReplicationInfo d)
                         (rangeOf range (BucketsUsage (filled d)))
                       = inr ri').
  { apply migrate_ok_iff. intros b' bui' Hin' Hq'.
    destruct (proj1 (filled_usage_qualifying d b' bui') (conj Hin' Hq'))
      as [Hb' _].
    rewrite (Huniq b' bui' Hb' Hq'). by exists cfg. }
  destruct Hok as [ri Hri].
  assert (Hl : loadReport objAPI = (withReplicationInfo (filled d) ri, None)).
  { by rewrite (loadReport_decoded objAPI r d Hg Hd), Hri. }
  eexists. split; [exact Hl|].
  destruct (loadReport_migrated objAPI r d _ b bui Hg Hd Hl Hb Hq)
    as (b' & bui' & cfg' & Hb' & Hq' & Hcfg' & Hinfo).
  pose proof (Huniq b' bui' Hb' Hq') as ->.
  assert (bui' = bui) as -> by congruence.
  assert (cfg' = cfg) as -> by congruence.
  split; [exact Hinfo|].
  unfold withReplicationInfo. cbn [BucketsUsage].
  rewrite (fillBucketSizes_usage range),
          (fillBucketsUsage_usage range range_ok).
  rewrite decide_False; [done|].
  intros Hz. by rewrite (len_zero_empty _ Hz), lookup_empty in Hb.
Qed.

Lemma DataUsageInfo_eq d1 d2 :
  ObjectsTotalCount d1 = ObjectsTotalCount d2 →
  ObjectsTotalSize d1 = ObjectsTotalSize d2 →
  BucketsCount d1 = BucketsCount d2 →
  ReplicationInfo d1 = ReplicationInfo d2 →
  BucketsUsage d1 = BucketsUsage d2 →
  BucketSizes d1 = BucketSizes d2 →
  d1 = d2.
Proof. destruct d1, d2. simpl. by intros -> -> -> -> -> ->. Qed.

Lemma filled_other_fields d :
  ObjectsTotalCount (filled d) = ObjectsTotalCount d ∧
  ObjectsTotalSize (filled d) = ObjectsTotalSize d ∧
  BucketsCount (filled d) = BucketsCount d ∧
  ReplicationInfo (filled d) = ReplicationInfo d.
Proof.
  unfold fillBucketSizes, fillBucketsUsage. by repeat case_decide.
Qed.

Lemma filled_usage d :
  BucketsUsage (filled d) =
  if decide (len (BucketsUsage d) = 0%nat)
  then Some (BucketUsageInfo_ofSize <$> default ∅ (BucketSizes d))
  else BucketsUsage d.
Proof.
  by rewrite (fillBucketSizes_usage range),
             (fillBucketsUsage_usage range range_ok).
Qed.

Lemma filled_sizes d :
  BucketSizes (filled d) =
  if decide (len (BucketSizes d) = 0%nat)
  then Some (Size <$> default ∅ (BucketsUsage (filled d)))
  else BucketSizes d.
Proof.
  rewrite (fillBucketSizes_sizes range range_ok),
          (fillBucketSizes_usage range).
  by rewrite (fillBucketsUsage_sizes range).
Qed.

(** The two compatibility steps change nothing when they are applied to a
    report they have already been applied to. *)
Theorem fill_steps_idempotent d :
  fillBucketSizes range
    (fillBucketsUsage range
       (fillBucketSizes range (fillBucketsUsage range d))) =
  fillBucketSizes range (fillBucketsUsage range d).
Proof.
  destruct (filled_other_fields d) as (Hc & Hs & Hb & Hr).
  destruct (filled_other_fields (filled d)) as (Hc' & Hs' & Hb' & Hr').
  assert (Hu : BucketsUsage (filled (filled d)) = BucketsUsage (filled d)).
  { rewrite (filled_usage (filled d)).
    case_decide as Hz; [|done].
    rewrite (filled_usage d) in Hz |- *.
    destruct (decide (len (BucketsUsage d) = 0%nat)) as [Hz0|Hz0]; [|done].
    cbn [len] in Hz. rewrite map_size_fmap in Hz.
    apply map_size_empty_iff in Hz.
    rewrite (filled_sizes d), (filled_usage d).
    rewrite (decide_True (P := len (BucketsUsage d) = 0%nat)) by done.
    rewrite Hz. destruct (BucketSizes d) as [g|]; simpl in Hz |- *.
    - subst g. rewrite (decide_True (P := size (∅ : gmap string N) = 0%nat))
        by apply map_size_empty.
      simpl. by rewrite !fmap_empty.
    - by rewrite !fmap_empty. }
  apply DataUsageInfo_eq; try congruence.
  rewrite (filled_sizes (filled d)), Hu.
  case_decide as Hz; [|done].
  rewrite (filled_sizes d) in Hz |- *.
  by destruct (decide (len (BucketSizes d) = 0%nat)).
Qed.

End LoadMore.

(** ** Further instances on the sample backend *)

Lemma loadPrefixUsage_range_order_irrelevant_witness :
  loadPrefixUsageFromBackend Sample.decodeDirObject Sample.range
    (Sample.erasureLayer Sample.poolsABC) "bucket" =
  loadPrefixUsageFromBackend Sample.decodeDirObject Sample.rangeRev
    (Sample.erasureLayer Sample.poolsABC) "bucket".
Proof.
  apply (loadPrefixUsage_range_order_irrelevant
           (UsageCache0 := Sample.cacheOps) Sample.decodeDirObject
           Sample.range Sample.rangeRev
           (Sample.erasureLayer Sample.poolsABC) "bucket"
           sample_range_sound sample_rangeRev_sound).
Defined.

Lemma loadPrefixUsage_pool_grouping_irrelevant_witness :
  Sample.loadPrefixUsage (Sample.erasureLayer Sample.poolsABC) "bucket" =
  Sample.loadPrefixUsage
    (Sample.erasureLayer
       {| serverPools := [ {| sets := [Sample.setA] |};
                           {| sets := [Sample.setB; Sample.setC] |} ] |})
    "bucket".
Proof.
  apply (loadPrefixUsage_pool_grouping_irrelevant
           (ObjectLayer0 := Sample.layerOps) (UsageCache0 := Sample.cacheOps)
           Sample.decodeDirObject Sample.range
           (Sample.erasureLayer Sample.poolsABC) _ Sample.poolsABC
           {| serverPools := [ {| sets := [Sample.setA] |};
                               {| sets := [Sample.setB; Sample.setC] |} ] |}
           "bucket"); reflexivity.
Defined.


Lemma scan_keeps_keys_witness :
  is_Some
    (m (foldl (scanSet Sample.decodeDirObject Sample.range "bucket")
          {| cache := dataUsageCache_zero (UsageCache := Sample.cacheOps);
             m := {[ "z" := 7 ]}; loads := [] |}
          [Sample.setA; Sample.setCorrupt]) !! "z").
Proof.
  apply (scan_keeps_keys (UsageCache0 := Sample.cacheOps)
           Sample.decodeDirObject Sample.range "bucket"
           [Sample.setA; Sample.setCorrupt] _ "z" sample_range_sound).
  by eexists.
Defined.

Lemma prefixOf_strips_bucket_witness :
  prefixOf Sample.decodeDirObject "bucket" "bucket/bucket/x" = "bucket/x" ∧
  HasPrefix "bucketeer/x" ("bucket" +:+ slashSeparator) = false ∧
  prefixOf Sample.decodeDirObject "bucket" "bucketeer/x" = "bucketeer/x".
Proof.
  destruct (prefixOf_strips_bucket Sample.decodeDirObject "bucket")
    as [Hstrip Hkeep].
  split; [exact (Hstrip "bucket/x")|].
  split; [reflexivity|].
  apply (Hkeep "bucketeer/x"). reflexivity.
Defined.

Lemma loadPrefixUsage_set_order_irrelevant_witness :
  (Sample.loadPrefixUsage (Sample.erasureLayer Sample.poolsABC) "bucket").1 =
  (Sample.loadPrefixUsage
     (Sample.erasureLayer
        {| serverPools := [ {| sets := [Sample.setC; Sample.setB] |};
                            {| sets := [Sample.setA] |} ] |})
     "bucket").1.
Proof.
  apply (loadPrefixUsage_set_order_irrelevant
           (ObjectLayer0 := Sample.layerOps) (UsageCache0 := Sample.cacheOps)
           Sample.decodeDirObject Sample.range sample_range_sound
           sample_load_replaces
           (Sample.erasureLayer Sample.poolsABC) _ Sample.poolsABC
           {| serverPools := [ {| sets := [Sample.setC; Sample.setB] |};
                               {| sets := [Sample.setA] |} ] |}
           "bucket"); [reflexivity|reflexivity|].
  symmetry.
  apply (reverse_Permutation [Sample.setA; Sample.setB; Sample.setC]).
Defined.

Lemma store_backend_follows_puts_witness :
  Forall (λ d, putPayload Sample.Marshal (Sample.NewReader 1)
                 Sample.NewPutObjReader d = None)
         [DataUsageInfo_zero; Sample.reportSizesOnly] ∧
  backend (Sample.storeDataUsage 1 Sample.layerNoReport
             [DataUsageInfo_zero; Sample.reportSizesOnly])
  = Sample.layerNoReport.
Proof.
  assert (Hnone : Forall (λ d, putPayload Sample.Marshal (Sample.NewReader 1)
                                 Sample.NewPutObjReader d = None)
                    [DataUsageInfo_zero; Sample.reportSizesOnly])
    by (repeat constructor).
  split; [exact Hnone|].
  destruct (store_backend_follows_puts Sample.minioMetaBucket
              Sample.bucketMetaPrefix Sample.isErrBucketNotFound
              Sample.Marshal (Sample.NewReader 1) Sample.NewPutObjReader
              Sample.layerNoReport
              [DataUsageInfo_zero; Sample.reportSizesOnly]) as [_ Hkeep].
  exact (proj1 (Hkeep Hnone)).
Defined.


Lemma loadDataUsage_error_means_zero_report_witness :
  is_Some (Sample.loadDataUsage Sample.range Sample.replicationTargets
             Sample.layerOffline).2 ∧
  (Sample.loadDataUsage Sample.range Sample.replicationTargets
     Sample.layerOffline).1 = DataUsageInfo_zero.
Proof.
  assert (Herr : is_Some (Sample.loadDataUsage Sample.range
                            Sample.replicationTargets Sample.layerOffline).2)
    by (by eexists).
  split; [exact Herr|].
  exact (loadDataUsage_error_means_zero_report Sample.minioMetaBucket
           Sample.bucketMetaPrefix Sample.isErrObjectNotFound
           Sample.isErrBucketNotFound Sample.toObjectErr
           (Sample.getReplicationConfig Sample.replicationTargets)
           (Sample.Decode Sample.codec) Sample.range Sample.layerOffline Herr).
Defined.

Lemma loadDataUsage_succeeds_iff_witness :
  (Sample.loadDataUsage Sample.range {[ "a" := "arn:target-a" ]}
     (Sample.layerWithReport [Byte.x03])).2 = None ↔
  ∀ b bui,
    default ∅ (BucketsUsage Sample.reportLegacy) !! b = Some bui →
    hasReplicationV1 bui = true →
    ∃ cfg, Sample.getReplicationConfig {[ "a" := "arn:target-a" ]} b = inr cfg.
Proof.
  apply (loadDataUsage_succeeds_iff (ObjectLayer0 := Sample.layerOps)
           Sample.minioMetaBucket Sample.bucketMetaPrefix
           Sample.isErrObjectNotFound Sample.isErrBucketNotFound
           Sample.toObjectErr
           (Sample.getReplicationConfig {[ "a" := "arn:target-a" ]})
           (Sample.Decode Sample.codec) Sample.range sample_range_sound
           (Sample.layerWithReport [Byte.x03]) [Byte.x03] Sample.reportLegacy);
    reflexivity.
Defined.

Lemma loadDataUsage_keeps_decoded_fields_witness :
  let d' := (Sample.loadDataUsage Sample.range Sample.replicationTargets
               (Sample.layerWithReport [Byte.x02])).1 in
  len (BucketsUsage Sample.reportUsageOnly) ≠ 0%nat ∧
  BucketsCount d' = 2 ∧
  BucketsUsage d' = BucketsUsage Sample.reportUsageOnly.
Proof.
  intros d'.
  assert (Hne : len (BucketsUsage Sample.reportUsageOnly) ≠ 0%nat)
    by (vm_compute; discriminate).
  split; [exact Hne|].
  destruct (loadDataUsage_keeps_decoded_fields
              (ObjectLayer0 := Sample.layerOps)
              Sample.minioMetaBucket Sample.bucketMetaPrefix
              Sample.isErrObjectNotFound Sample.isErrBucketNotFound
              Sample.toObjectErr
              (Sample.getReplicationConfig Sample.replicationTargets)
              (Sample.Decode Sample.codec) Sample.range
              (Sample.layerWithReport [Byte.x02]) [Byte.x02]
              Sample.reportUsageOnly d'
              ltac:(reflexivity) ltac:(reflexivity) ltac:(reflexivity))
    as (_ & _ & Hcount & Husage & _).
  split; [exact Hcount|]. exact (Husage Hne).
Defined.

Lemma loadDataUsage_without_legacy_counters_witness :
  (∃ d', Sample.loadDataUsage Sample.range ∅
           (Sample.layerWithReport [Byte.x02]) = (d', None) ∧
         ReplicationInfo d' = ReplicationInfo Sample.reportUsageOnly) ∧
  (∃ d', Sample.loadDataUsage Sample.range ∅
           (Sample.layerWithReport [Byte.x01]) = (d', None) ∧
         ReplicationInfo d' = ReplicationInfo Sample.reportSizesOnly).
Proof.
  split.
  - apply (proj1 (loadDataUsage_without_legacy_counters
             (ObjectLayer0 := Sample.layerOps)
             Sample.minioMetaBucket Sample.bucketMetaPrefix
             Sample.isErrObjectNotFound Sample.isErrBucketNotFound
             Sample.toObjectErr (Sample.getReplicationConfig ∅)
             (Sample.Decode Sample.codec) Sample.range sample_range_sound
             (Sample.layerWithReport [Byte.x02]) [Byte.x02]
             Sample.reportUsageOnly ltac:(reflexivity) ltac:(reflexivity))).
    intros b bui. simpl.
    destruct (decide (b = "a")) as [->|Ha].
    { intros [= <-]. reflexivity. }
    destruct (decide (b = "b")) as [->|Hb].
    { intros [= <-]. reflexivity. }
    rewrite lookup_insert_ne by done. by rewrite lookup_singleton_ne.
  - apply (proj2 (loadDataUsage_without_legacy_counters
             (ObjectLayer0 := Sample.layerOps)
             Sample.minioMetaBucket Sample.bucketMetaPrefix
             Sample.isErrObjectNotFound Sample.isErrBucketNotFound
             Sample.toObjectErr (Sample.getReplicationConfig ∅)
             (Sample.Decode Sample.codec) Sample.range sample_range_sound
             (Sample.layerWithReport [Byte.x01]) [Byte.x01]
             Sample.reportSizesOnly ltac:(reflexivity) ltac:(reflexivity))).
    reflexivity.
Defined.

Lemma loadDataUsage_migrates_one_bucket_witness :
  ∃ b' bui' cfg,
    default ∅ (BucketsUsage Sample.reportLegacy) !! b' = Some bui' ∧
    hasReplicationV1 bui' = true ∧
    Sample.getReplicationConfig Sample.replicationTargets b' = inr cfg ∧
    ReplicationInfo
      (Sample.loadDataUsage Sample.rangeRev Sample.replicationTargets
         (Sample.layerWithReport [Byte.x03])).1
    = Some {[RoleArn cfg := targetOfV1 bui']}.
Proof.
  apply (loadDataUsage_migrates_one_bucket
           (ObjectLayer0 := Sample.layerOps)
           Sample.minioMetaBucket Sample.bucketMetaPrefix
           Sample.isErrObjectNotFound Sample.isErrBucketNotFound
           Sample.toObjectErr
           (Sample.getReplicationConfig Sample.replicationTargets)
           (Sample.Decode Sample.codec) Sample.rangeRev sample_rangeRev_sound
           (Sample.layerWithReport [Byte.x03]) [Byte.x03] Sample.reportLegacy
           _ "a" (Sample.usage 10 1 0)); reflexivity.
Defined.

Lemma loadDataUsage_migrates_single_bucket_witness :
  let d := Sample.report 2
             (Some {[ "a" := Sample.usage 10 0 0;
                      "b" := Sample.usage 20 2 5 ]}) None in
  ∃ d',
    loadDataUsageFromBackend Sample.minioMetaBucket Sample.bucketMetaPrefix
      Sample.isErrObjectNotFound Sample.isErrBucketNotFound
      Sample.toObjectErr
      (Sample.getReplicationConfig Sample.replicationTargets)
      (Sample.Decode [([Byte.x05], d)]) Sample.range
      (Sample.layerWithReport [Byte.x05]) = (d', None) ∧
    ReplicationInfo d' =
      Some {[ "arn:target-b" :=
                {| ReplicationPendingSize := 5; ReplicationFailedSize := 0;
                   ReplicatedSize := 2; ReplicationPendingCount := 0;
                   ReplicationFailedCount := 0 |} ]} ∧
    BucketsUsage d' = BucketsUsage d.
Proof.
  intros d.
  apply (loadDataUsage_migrates_single_bucket
           (ObjectLayer0 := Sample.layerOps)
           Sample.minioMetaBucket Sample.bucketMetaPrefix
           Sample.isErrObjectNotFound Sample.isErrBucketNotFound
           Sample.toObjectErr
           (Sample.getReplicationConfig Sample.replicationTargets)
           (Sample.Decode [([Byte.x05], d)]) Sample.range sample_range_sound
           (Sample.layerWithReport [Byte.x05]) [Byte.x05] d
           "b" (Sample.usage 20 2 5) {| RoleArn := "arn:target-b" |});
    try reflexivity.
  intros b' bui'. simpl.
  destruct (decide (b' = "a")) as [->|Ha].
  { intros [= <-]. discriminate. }
  destruct (decide (b' = "b")) as [->|Hb]; [done|].
  rewrite lookup_insert_ne by done. by rewrite lookup_singleton_ne.
Defined.

Lemma fill_steps_idempotent_witness :
  let filled := fillBucketSizes Sample.range
                  (fillBucketsUsage Sample.range Sample.reportSizesOnly) in
  BucketsUsage filled =
    Some {[ "a" := BucketUsageInfo_ofSize 10;
            "b" := BucketUsageInfo_ofSize 20 ]} ∧
  fillBucketSizes Sample.range (fillBucketsUsage Sample.range filled)
  = filled.
Proof.
  intros filled. split; [reflexivity|].
  apply (fill_steps_idempotent Sample.range sample_range_sound
           Sample.reportSizesOnly).
Defined.
